(** * generate_psa_constants.py: the macro collector and the emitter

    A shallow embedding of [scripts/generate_psa_constants.py]: the
    regular expression that recognises macro definitions, the ordered
    rule chain of [MacroCollector.read_line], the fragment renderers, the
    output template, and the file handling of [generate_psa_constants].

    Text is modelled as [string]: a character is a code point from 0 to
    255.  This is the text of an ASCII file under any encoding that
    extends ASCII, and of every file under the Latin-1 encoding, which
    decodes each byte to the code point of the same number.  The character
    classes of the regular expressions are those of text patterns on that
    range: the blank class holds the ASCII blanks 9 to 13 and 32, the
    separators 28 to 31, and the two Latin-1 blanks 133 and 160; the word
    class holds the ASCII letters, digits and underscore and the Latin-1
    letters and numerals; the dot is everything but a newline.  A file
    holds its text as stored; reading it in text mode turns every line
    ending (CR LF, or a lone CR) into a newline.  Python sets are
    [gset string], Python dicts are [gmap string string]; the order in
    which Python iterates over them is a parameter of the emitter. *)

From Stdlib Require Import Ascii NArith Arith Lia DecimalString.
From Stdlib Require String.
From stdpp Require Import base option list gmap sets strings sorting.

Module Str := Stdlib.Strings.String.

Set Warnings "-clear-no-such-hyp".

(** * The program *)

(** ** Characters and strings *)

Definition code (c : ascii) : nat := nat_of_ascii c.

Definition between (lo hi : nat) (c : ascii) : bool :=
  (lo <=? code c) && (code c <=? hi).

(** [\s] on text: the ASCII blanks, the separators 28 to 31, and the
    Latin-1 blanks (next line, no-break space). *)
Definition is_space (c : ascii) : bool :=
  between 9 13 c || between 28 32 c || (code c =? 133) || (code c =? 160).

(** [\w] on text: alphanumeric or underscore; beyond ASCII that is the
    Latin-1 letters (all of 192 to 255 but the two operators 215 and 247,
    the ordinal indicators 170 and 186, the micro sign 181) and numerals
    (the superscripts 178, 179 and 185, the fractions 188 to 190). *)
Definition is_word (c : ascii) : bool :=
  between 97 122 c || between 65 90 c || between 48 57 c || (code c =? 95)
  || (code c =? 170) || between 178 179 c || (code c =? 181)
  || between 185 186 c || between 188 190 c
  || between 192 214 c || between 216 246 c || between 248 255 c.

(** [.] (without DOTALL) *)
Definition is_dot (c : ascii) : bool :=
  negb (code c =? 10).

(** [[0-9A-Fa-f]] *)
Definition is_hex (c : ascii) : bool :=
  between 48 57 c || between 65 70 c || between 97 102 c.

(** [[*/]] *)
Definition is_star_or_slash (c : ascii) : bool :=
  (code c =? 42) || (code c =? 47).

(** The double quote character, as a one-character string. *)
Definition dq : string := String (ascii_of_nat 34) EmptyString.

(** The newline character, as a one-character string. *)
Definition nl : string := String (ascii_of_nat 10) EmptyString.

(** [len(s)] *)
Definition len (s : string) : nat := Str.length s.

(** [s[:n]] *)
Fixpoint take_str (n : nat) (s : string) : string :=
  match n, s with
  | S n', String c s' => String c (take_str n' s')
  | _, _ => EmptyString
  end.

(** [s[n:]] *)
Fixpoint drop_str (n : nat) (s : string) : string :=
  match n, s with
  | S n', String _ s' => drop_str n' s'
  | _, _ => s
  end.

(** [s.startswith(p)] *)
Fixpoint startswith (s p : string) {struct p} : bool :=
  match p, s with
  | EmptyString, _ => true
  | String a p', String b s' => if Ascii.eqb a b then startswith s' p' else false
  | String _ _, EmptyString => false
  end.

(** [s.endswith(p)] *)
Definition endswith (s p : string) : bool :=
  (len p <=? len s) && Str.eqb (drop_str (len s - len p) s) p.

(** [p in s] for strings *)
Fixpoint contains (s p : string) : bool :=
  startswith s p ||
  match s with
  | EmptyString => false
  | String _ s' => contains s' p
  end.

(** [x in l] for a list of strings *)
Definition in_list (x : string) (l : list string) : bool :=
  existsb (Str.eqb x) l.

(** [sep.join(l)] *)
Fixpoint join (sep : string) (l : list string) : string :=
  match l with
  | [] => EmptyString
  | [x] => x
  | x :: l' => x +:+ sep +:+ join sep l'
  end.

(** [str(n)] and [%d] for a non-negative integer *)
Definition str_of_nat (n : nat) : string :=
  NilEmpty.string_of_uint (Nat.to_uint n).

(** ** Regular expressions, with Python's backtracking semantics *)

Inductive regex : Type :=
| Eps
| Chr (c : ascii)
| Cls (p : ascii → bool)
| Seq (r1 r2 : regex)
| Alt (r1 r2 : regex)
| Star (r : regex)
| Grp (i : nat) (r : regex).

(** [r+], [r?] (both greedy), a literal word, a sequence. *)
Definition Plus (r : regex) : regex := Seq r (Star r).
Definition Opt (r : regex) : regex := Alt r Eps.
Fixpoint Lit (s : string) : regex :=
  match s with
  | EmptyString => Eps
  | String c s' => Seq (Chr c) (Lit s')
  end.
Fixpoint Seqs (l : list regex) : regex :=
  match l with
  | [] => Eps
  | [r] => r
  | r :: l' => Seq r (Seqs l')
  end.

(** The groups captured so far: group number to captured text. *)
Definition groups : Type := nat → option string.
Definition no_groups : groups := λ _, None.
Definition set_group (i : nat) (v : string) (g : groups) : groups :=
  λ j, if Nat.eqb i j then Some v else g j.

(** The text consumed between the remainder [s] and the later remainder [s']. *)
Definition consumed (s s' : string) : string :=
  take_str (len s - len s') s.

(** The repetition [r*] (greedy), given the matcher [m] of [r]: one more
    round of [r] is tried first, and only when everything after it fails
    does the repetition stop here.  A round must consume something; [n]
    bounds the number of rounds by the length of the text. *)
Definition star_loop {A : Type}
    (m : string → groups → (string → groups → option A) → option A)
    (k : string → groups → option A) : nat → string → groups → option A :=
  fix loop (n : nat) (s : string) (g : groups) {struct n} : option A :=
    match n with
    | 0 => k s g
    | S n' =>
        match m s g (λ s' g', if len s' <? len s then loop n' s' g' else None) with
        | Some x => Some x
        | None => k s g
        end
    end.

(** The matcher, in continuation-passing style: [rmatch r s g k] matches [r]
    at the start of [s] and hands the remainder and the groups to [k];
    when [k] fails the matcher backtracks into [r], trying the longer
    repetition before the shorter one and the left alternative before the
    right one. *)
Fixpoint rmatch {A : Type} (r : regex) (s : string) (g : groups)
    (k : string → groups → option A) : option A :=
  match r with
  | Eps => k s g
  | Chr c =>
      match s with
      | String a s' => if Ascii.eqb a c then k s' g else None
      | EmptyString => None
      end
  | Cls p =>
      match s with
      | String a s' => if p a then k s' g else None
      | EmptyString => None
      end
  | Seq r1 r2 => rmatch r1 s g (λ s' g', rmatch r2 s' g' k)
  | Alt r1 r2 =>
      match rmatch r1 s g k with
      | Some x => Some x
      | None => rmatch r2 s g k
      end
  | Star r1 => star_loop (rmatch r1) k (len s) s g
  | Grp i r1 => rmatch r1 s g (λ s' g', k s' (set_group i (consumed s s') g'))
  end.

(** [re.match(r, s)]: anchored at the start only; the result is the groups. *)
Definition re_match (r : regex) (s : string) : option groups :=
  rmatch r s no_groups (λ _ g, Some g).

(** [re.search(r, s)] as a truth value: a match at some position. *)
Fixpoint re_search (r : regex) (s : string) : bool :=
  match re_match r s with
  | Some _ => true
  | None =>
      match s with
      | EmptyString => false
      | String _ s' => re_search r s'
      end
  end.

(** ** The collector *)

Local Open Scope char_scope.

(** [definition_re], token by token: optional blanks, a hash sign, optional
    blanks, the word define, blanks, group 1 (one or more word
    characters), then either blanks or a parenthesised group 2 (one or more
    word characters) with optional blanks after it, then group 3 (one or
    more characters other than a newline), then an optional slash followed
    by a star or a slash. *)
Definition definition_re : regex :=
  Seqs [ Star (Cls is_space); Chr "#"; Star (Cls is_space); Lit "define";
         Plus (Cls is_space);
         Grp 1 (Plus (Cls is_word));
         Alt (Plus (Cls is_space))
             (Seqs [ Chr "("; Grp 2 (Plus (Cls is_word)); Chr ")";
                     Star (Cls is_space) ]);
         Grp 3 (Plus (Cls is_dot));
         Opt (Seq (Chr "/") (Cls is_star_or_slash)) ].

(** The pattern of the hash algorithm values: the literal 0x010000
    followed by two hexadecimal digits. *)
Definition hash_re : regex :=
  Seqs [ Lit "0x010000"; Cls is_hex; Cls is_hex ].

Local Close Scope char_scope.

(** [m = re.match(self.definition_re, line)] followed by
    [name, parameter, definition = m.groups()]; [None] when [not m]. *)
Definition match_definition (line : string)
    : option (string * option string * string) :=
  match re_match definition_re line with
  | None => None
  | Some g =>
      match g 1, g 3 with
      | Some name, Some definition => Some (name, g 2, definition)
      | _, _ => None
      end
  end.

(** The state of a [MacroCollector]: six sets of names, the set of hash
    algorithm names, and two dicts from a name to the name of its tester. *)
Record MacroCollector : Type := mkCollector {
  statuses : gset string;
  key_types : gset string;
  key_types_from_curve : gmap string string;
  ecc_curves : gset string;
  algorithms : gset string;
  hash_algorithms : gset string;
  block_cipher_padding_modes : gset string;
  algorithms_from_hash : gmap string string;
  key_usages : gset string
}.

(** [MacroCollector.__init__] *)
Definition init : MacroCollector :=
  {| statuses := ∅; key_types := ∅; key_types_from_curve := ∅;
     ecc_curves := ∅; algorithms := ∅; hash_algorithms := ∅;
     block_cipher_padding_modes := ∅; algorithms_from_hash := ∅;
     key_usages := ∅ |}.

(** The field updates of [read_line]: [s.add(x)] and [d[k] = v]. *)
Definition add_status (x : string) (c : MacroCollector) : MacroCollector :=
  mkCollector ({[x]} ∪ statuses c) (key_types c) (key_types_from_curve c)
    (ecc_curves c) (algorithms c) (hash_algorithms c)
    (block_cipher_padding_modes c) (algorithms_from_hash c) (key_usages c).
Definition add_key_type (x : string) (c : MacroCollector) : MacroCollector :=
  mkCollector (statuses c) ({[x]} ∪ key_types c) (key_types_from_curve c)
    (ecc_curves c) (algorithms c) (hash_algorithms c)
    (block_cipher_padding_modes c) (algorithms_from_hash c) (key_usages c).
Definition set_key_type_from_curve (k v : string) (c : MacroCollector)
    : MacroCollector :=
  mkCollector (statuses c) (key_types c) (<[k:=v]> (key_types_from_curve c))
    (ecc_curves c) (algorithms c) (hash_algorithms c)
    (block_cipher_padding_modes c) (algorithms_from_hash c) (key_usages c).
Definition add_ecc_curve (x : string) (c : MacroCollector) : MacroCollector :=
  mkCollector (statuses c) (key_types c) (key_types_from_curve c)
    ({[x]} ∪ ecc_curves c) (algorithms c) (hash_algorithms c)
    (block_cipher_padding_modes c) (algorithms_from_hash c) (key_usages c).
Definition add_algorithm (x : string) (c : MacroCollector) : MacroCollector :=
  mkCollector (statuses c) (key_types c) (key_types_from_curve c)
    (ecc_curves c) ({[x]} ∪ algorithms c) (hash_algorithms c)
    (block_cipher_padding_modes c) (algorithms_from_hash c) (key_usages c).
Definition add_hash_algorithm (x : string) (c : MacroCollector)
    : MacroCollector :=
  mkCollector (statuses c) (key_types c) (key_types_from_curve c)
    (ecc_curves c) (algorithms c) ({[x]} ∪ hash_algorithms c)
    (block_cipher_padding_modes c) (algorithms_from_hash c) (key_usages c).
Definition add_block_cipher_padding_mode (x : string) (c : MacroCollector)
    : MacroCollector :=
  mkCollector (statuses c) (key_types c) (key_types_from_curve c)
    (ecc_curves c) (algorithms c) (hash_algorithms c)
    ({[x]} ∪ block_cipher_padding_modes c) (algorithms_from_hash c)
    (key_usages c).
Definition set_algorithm_from_hash (k v : string) (c : MacroCollector)
    : MacroCollector :=
  mkCollector (statuses c) (key_types c) (key_types_from_curve c)
    (ecc_curves c) (algorithms c) (hash_algorithms c)
    (block_cipher_padding_modes c) (<[k:=v]> (algorithms_from_hash c))
    (key_usages c).
Definition add_key_usage (x : string) (c : MacroCollector) : MacroCollector :=
  mkCollector (statuses c) (key_types c) (key_types_from_curve c)
    (ecc_curves c) (algorithms c) (hash_algorithms c)
    (block_cipher_padding_modes c) (algorithms_from_hash c)
    ({[x]} ∪ key_usages c).

(** [not parameter]: the group is [None] (or the empty string). *)
Definition not_ (parameter : option string) : bool :=
  match parameter with
  | None => true
  | Some EmptyString => true
  | Some (String _ _) => false
  end.

(** [parameter == v] *)
Definition param_is (parameter : option string) (v : string) : bool :=
  match parameter with
  | None => false
  | Some p => Str.eqb p v
  end.

(** The three names skipped by hand in the algorithm rule. *)
Definition base_names : list string :=
  [ "PSA_ALG_BLOCK_CIPHER_BASE"; "PSA_ALG_ECDSA_BASE";
    "PSA_ALG_RSA_PKCS1V15_SIGN_BASE" ].

(** The two names with the naming irregularity. *)
Definition randomized_names : list string := [ "PSA_ALG_DSA"; "PSA_ALG_ECDSA" ].

(** The rule chain of [read_line], after the line has matched. *)
Definition classify (name : string) (parameter : option string)
    (definition : string) (c : MacroCollector) : MacroCollector :=
  if endswith name "_FLAG" || endswith name "MASK" then
    c
  else if (startswith name "PSA_ERROR_" || Str.eqb name "PSA_SUCCESS")
          && not_ parameter then
    add_status name c
  else if startswith name "PSA_KEY_TYPE_" && not_ parameter then
    add_key_type name c
  else if startswith name "PSA_KEY_TYPE_" && param_is parameter "curve" then
    set_key_type_from_curve name
      (take_str 13 name +:+ "IS_" +:+ drop_str 13 name) c
  else if startswith name "PSA_ECC_CURVE_" && not_ parameter then
    add_ecc_curve name c
  else if startswith name "PSA_ALG_BLOCK_CIPHER_PAD_" && not_ parameter then
    add_block_cipher_padding_mode name c
  else if startswith name "PSA_ALG_" && not_ parameter then
    if in_list name base_names then
      c
    else
      let c1 := add_algorithm name c in
      if re_search hash_re definition then add_hash_algorithm name c1 else c1
  else if startswith name "PSA_ALG_" && param_is parameter "hash_alg" then
    let tester :=
      if in_list name randomized_names
      then take_str 8 name +:+ "IS_RANDOMIZED_" +:+ drop_str 8 name
      else take_str 8 name +:+ "IS_" +:+ drop_str 8 name in
    set_algorithm_from_hash name tester c
  else if startswith name "PSA_KEY_USAGE_" && not_ parameter then
    add_key_usage name c
  else
    c.

(** [MacroCollector.read_line] *)
Definition read_line (c : MacroCollector) (line : string) : MacroCollector :=
  match match_definition line with
  | None => c
  | Some (name, parameter, definition) => classify name parameter definition c
  end.

(** [MacroCollector.read_file]: the lines of the file, in order. *)
Definition read_file (c : MacroCollector) (header_file : list string)
    : MacroCollector :=
  foldl read_line c header_file.

(** ** The emitter *)

(** [output_template], cut at its nine placeholders; [%%] is a percent sign. *)
Definition output_template_0 : string :=
  "/* Automatically generated by generate_psa_constant.py. DO NOT EDIT. */

static const char *psa_strerror(psa_status_t status)
{
    switch (status) {
    ".
Definition output_template_1 : string :=
  "
    default: return NULL;
    }
}

static const char *psa_ecc_curve_name(psa_ecc_curve_t curve)
{
    switch (curve) {
    ".
Definition output_template_2 : string :=
  "
    default: return NULL;
    }
}

static const char *psa_hash_algorithm_name(psa_algorithm_t hash_alg)
{
    switch (hash_alg) {
    ".
Definition output_template_3 : string :=
  "
    default: return NULL;
    }
}

static int psa_snprint_key_type(char *buffer, size_t buffer_size,
                                psa_key_type_t type)
{
    size_t required_size = 0;
    switch (type) {
    ".
Definition output_template_4 : string :=
  "
    default:
        ".
Definition output_template_5 : string :=
  "{
            return snprintf(buffer, buffer_size,
                            " +:+ dq +:+ "0x%08lx" +:+ dq +:+ ", (unsigned long) type);
        }
        break;
    }
    buffer[0] = 0;
    return required_size;
}

static void append_padding_mode(char **buffer, size_t buffer_size,
                                size_t *required_size,
                                psa_algorithm_t padding_mode)
{
    size_t n;
    append(buffer, buffer_size, required_size, " +:+ dq +:+ " | " +:+ dq +:+ ", 3);
    switch (padding_mode) {
    ".
Definition output_template_6 : string :=
  "
    default:
        n = snprintf(" +:+ "*buffer, buffer_size - *required_size,
                     " +:+ dq +:+ "0x%08lx" +:+ dq +:+ ", (unsigned long) padding_mode);
        if (n < buffer_size - *required_size) *buffer += n;
        *required_size += n;
        break;
    }
}

static int psa_snprint_algorithm(char *buffer, size_t buffer_size,
                                 psa_algorithm_t alg)
{
    size_t required_size = 0;
    psa_algorithm_t padding_mode = -1;
    psa_algorithm_t alg_without_padding = alg;
    if (PSA_ALG_IS_CIPHER(alg) && PSA_ALG_IS_BLOCK_CIPHER(alg)) {
            padding_mode = alg & PSA_ALG_BLOCK_CIPHER_PADDING_MASK;
            alg_without_padding = alg & ~PSA_ALG_BLOCK_CIPHER_PADDING_MASK;
    }
    switch (alg_without_padding) {
    ".
Definition output_template_7 : string :=
  "
    default:
        ".
Definition output_template_8 : string :=
  "{
            return snprintf(buffer, buffer_size,
                            " +:+ dq +:+ "0x%08lx" +:+ dq +:+ ", (unsigned long) alg);
        }
        break;
    }
    if (padding_mode != (psa_algorithm_t) -1) {
        append_padding_mode(&buffer, buffer_size, &required_size, padding_mode);
    }
    buffer[0] = 0;
    return required_size;
}

static int psa_snprint_key_usage(char *buffer, size_t buffer_size,
                                 psa_key_usage_t usage)
{
    size_t required_size = 0;
    if (usage == 0) {
        if (buffer_size > 1) {
            buffer[0] = '0';
            buffer[1] = 0;
        } else if (buffer_size == 1) {
            buffer[0] = 0;
        }
        return 1;
    }
".
Definition output_template_9 : string :=
  "
    if (usage != 0) {
        if (required_size != 0) {
            append(&buffer, buffer_size, &required_size, " +:+ dq +:+ " | " +:+ dq +:+ ", 3);
        }
        required_size += snprintf(buffer, buffer_size - required_size,
                                  " +:+ dq +:+ "0x%08x" +:+ dq +:+ ", usage);
    } else {
        buffer[0] = 0;
    }
    return required_size;
}

/* End of automatically generated file. */
".

(** [key_type_from_curve_template % {tester, builder, builder_length}] *)
Definition key_type_from_curve_template (tester builder builder_length : string)
    : string :=
  "if (" +:+ tester +:+ "(type)) {
        append_with_curve(&buffer, buffer_size, &required_size,
                          " +:+ dq +:+ builder +:+ dq +:+ ", " +:+ builder_length +:+ ",
                          PSA_KEY_TYPE_GET_CURVE(type));
    } else ".

(** [algorithm_from_hash_template % {tester, builder, builder_length}] *)
Definition algorithm_from_hash_template (tester builder builder_length : string)
    : string :=
  "if (" +:+ tester +:+ "(alg_without_padding)) {
        append_with_hash(&buffer, buffer_size, &required_size,
                         " +:+ dq +:+ builder +:+ dq +:+ ", " +:+ builder_length +:+ ",
                         PSA_ALG_GET_HASH(alg_without_padding));
    } else ".

(** [bit_test_template % {var, flag, length}] *)
Definition bit_test_template (var flag : string) (length : nat) : string :=
  "    if (" +:+ var +:+ " & " +:+ flag +:+ ") {
        if (required_size != 0) {
            append(&buffer, buffer_size, &required_size, " +:+ dq +:+ " | " +:+ dq +:+ ", 3);
        }
        append(&buffer, buffer_size, &required_size, " +:+ dq +:+ flag +:+ dq +:+ ", " +:+ str_of_nat length +:+ ");
        " +:+ var +:+ " ^= " +:+ flag +:+ ";
    }".

Definition make_return_case (name : string) : string :=
  "case " +:+ name +:+ ": return " +:+ dq +:+ name +:+ dq +:+ ";".

Definition make_append_case (name : string) : string :=
  "case " +:+ name +:+ ": " +:+
  "append(&buffer, buffer_size, &required_size, " +:+ dq +:+ name +:+ dq +:+
  ", " +:+ str_of_nat (len name) +:+ "); " +:+
  "break;".

Definition make_inner_append_case (name : string) : string :=
  "case " +:+ name +:+ ": " +:+
  "append(buffer, buffer_size, required_size, " +:+ dq +:+ name +:+ dq +:+
  ", " +:+ str_of_nat (len name) +:+ "); " +:+
  "break;".

Definition make_bit_test (var flag : string) : string :=
  bit_test_template var flag (len flag).

Definition make_key_type_from_curve_code (builder tester : string) : string :=
  key_type_from_curve_template tester builder (str_of_nat (len builder)).

Definition make_algorithm_from_hash_code (builder tester : string) : string :=
  algorithm_from_hash_template tester builder (str_of_nat (len builder)).

(** [sorted(l)] on strings: ascending in the order of the character codes. *)
Definition sorted (l : list string) : list string :=
  merge_sort String.le l.

Section Emitter.

(** The order in which Python happens to iterate over a set, or over the
    keys of a dict: some enumeration of its elements. *)
Variable iter : gset string → list string.

Definition make_status_cases (c : MacroCollector) : string :=
  join (nl +:+ "    ") (map make_return_case (sorted (iter (statuses c)))).

Definition make_ecc_curve_cases (c : MacroCollector) : string :=
  join (nl +:+ "    ") (map make_return_case (sorted (iter (ecc_curves c)))).

Definition make_key_type_cases (c : MacroCollector) : string :=
  join (nl +:+ "    ") (map make_append_case (sorted (iter (key_types c)))).

Definition make_key_type_code (c : MacroCollector) : string :=
  let d := key_types_from_curve c in
  let make := make_key_type_from_curve_code in
  join (nl +:+ "        ")
       (map (λ k, make k (d !!! k)) (sorted (iter (dom d)))).

Definition make_hash_algorithm_cases (c : MacroCollector) : string :=
  join (nl +:+ "    ")
       (map make_return_case (sorted (iter (hash_algorithms c)))).

Definition make_padding_mode_cases (c : MacroCollector) : string :=
  join (nl +:+ "    ")
       (map make_inner_append_case
            (sorted (iter (block_cipher_padding_modes c)))).

Definition make_algorithm_cases (c : MacroCollector) : string :=
  join (nl +:+ "    ") (map make_append_case (sorted (iter (algorithms c)))).

Definition make_algorithm_code (c : MacroCollector) : string :=
  let d := algorithms_from_hash c in
  let make := make_algorithm_from_hash_code in
  join (nl +:+ "        ")
       (map (λ k, make k (d !!! k)) (sorted (iter (dom d)))).

Definition make_key_usage_code (c : MacroCollector) : string :=
  join nl (map (λ bit, make_bit_test "usage" bit)
               (sorted (iter (key_usages c)))).

(** [MacroCollector.write_file]: the text handed to [output_file.write],
    [output_template % data]. *)
Definition write_file (c : MacroCollector) : string :=
  output_template_0 +:+ make_status_cases c +:+
  output_template_1 +:+ make_ecc_curve_cases c +:+
  output_template_2 +:+ make_hash_algorithm_cases c +:+
  output_template_3 +:+ make_key_type_cases c +:+
  output_template_4 +:+ make_key_type_code c +:+
  output_template_5 +:+ make_padding_mode_cases c +:+
  output_template_6 +:+ make_algorithm_cases c +:+
  output_template_7 +:+ make_algorithm_code c +:+
  output_template_8 +:+ make_key_usage_code c +:+
  output_template_9.

End Emitter.

(** ** Files and the generation run *)

(** The file system: path to content. *)
Abbreviation files := (gmap string string).

(** What the outside world decides: which paths cannot be opened for
    reading or for writing, how many characters a write gets through
    before it fails ([None]: all of them), and whether a rename fails. *)
Record env : Type := mkEnv {
  unreadable : string → bool;
  unwritable : string → bool;
  write_limit : option nat;
  rename_fails : bool
}.

(** A call either returns or raises [IOError] / [OSError]. *)
Inductive outcome (A : Type) : Type :=
| Returned (a : A)
| Raised.
Arguments Returned {A} a.
Arguments Raised {A}.

(** Computations over the file system that may raise. *)
Definition io (A : Type) : Type := env → files → outcome A * files.

Definition io_ret {A} (a : A) : io A := λ _ fs, (Returned a, fs).

Definition io_bind {A B} (m : io A) (k : A → io B) : io B :=
  λ e fs,
    match m e fs with
    | (Returned a, fs') => k a e fs'
    | (Raised, fs') => (Raised, fs')
    end.

#[global] Instance io_mret : MRet io := @io_ret.
#[global] Instance io_mbind : MBind io := λ A B k m, io_bind m k.

(** Reading in text mode: a line ends at a newline, at a carriage return,
    or at a carriage return followed by a newline, and each of these
    arrives as one newline. *)
Fixpoint universal_newlines (s : string) : string :=
  match s with
  | EmptyString => EmptyString
  | String a s' =>
      if code a =? 13
      then String (ascii_of_nat 10)
             match s' with
             | String b s'' =>
                 if code b =? 10 then universal_newlines s''
                 else universal_newlines s'
             | EmptyString => EmptyString
             end
      else String a (universal_newlines s')
  end.

(** The lines of a text, each with its newline; the last one has none
    when the text does not end in one. *)
Fixpoint split_lines (s : string) : list string :=
  match s with
  | EmptyString => []
  | String a s' =>
      if code a =? 10 then String a EmptyString :: split_lines s'
      else match split_lines s' with
           | [] => [String a EmptyString]
           | l :: ls => String a l :: ls
           end
  end.

(** [for line in f], for the file object of a file with this content. *)
Definition readlines (s : string) : list string :=
  split_lines (universal_newlines s).

(** [with open(name) as f: ... for line in f]: the lines of the file;
    raises when the file is missing or cannot be read. *)
Definition open_read (name : string) : io (list string) :=
  λ e fs,
    match fs !! name with
    | Some content =>
        if unreadable e name then (Raised, fs)
        else (Returned (readlines content), fs)
    | None => (Raised, fs)
    end.

(** [open(name, 'w')]: creates the file, or empties it. *)
Definition open_write (name : string) : io unit :=
  λ e fs,
    if unwritable e name then (Raised, fs)
    else (Returned tt, <[name := EmptyString]> fs).

(** [f.write(text)] and the close at the end of the [with] block, for the
    file opened at [name]: when the write fails, what got through stays in
    the file.  A newline is stored as it is, the line separator being the
    newline. *)
Definition write (name : string) (text : string) : io unit :=
  λ e fs,
    let old := default EmptyString (fs !! name) in
    match write_limit e with
    | Some n =>
        if n <? len text
        then (Raised, <[name := old +:+ take_str n text]> fs)
        else (Returned tt, <[name := old +:+ text]> fs)
    | None => (Returned tt, <[name := old +:+ text]> fs)
    end.

(** [os.rename(src, dst)] *)
Definition os_rename (src dst : string) : io unit :=
  λ e fs,
    match fs !! src with
    | Some content =>
        if rename_fails e then (Raised, fs)
        else (Returned tt, <[dst := content]> (delete src fs))
    | None => (Raised, fs)
    end.

(** [generate_psa_constants(header_file_name, output_file_name)] *)
Definition generate_psa_constants (iter : gset string → list string)
    (header_file_name output_file_name : string) : io unit :=
  header_file ← open_read header_file_name;
  let collector := read_file init header_file in
  let temp_file_name := output_file_name +:+ ".tmp" in
  open_write temp_file_name;;
  write temp_file_name (write_file iter collector);;
  os_rename temp_file_name output_file_name.

(** * The vocabulary of the statements *)

(** The longest run of characters of a class at the start of a text, and
    what follows it. *)
Fixpoint take_while (p : ascii → bool) (s : string) : string :=
  match s with
  | String a s' => if p a then String a (take_while p s') else EmptyString
  | EmptyString => EmptyString
  end.

Fixpoint drop_while (p : ascii → bool) (s : string) : string :=
  match s with
  | String a s' => if p a then drop_while p s' else s
  | EmptyString => EmptyString
  end.

(** Every character of a text is of a class. *)
Fixpoint all_chars (p : ascii → bool) (s : string) : bool :=
  match s with
  | String a s' => p a && all_chars p s'
  | EmptyString => true
  end.

(** The first character of a text, if any, is not of a class. *)
Definition head_not (p : ascii → bool) (s : string) : Prop :=
  match s with
  | String a _ => p a = false
  | EmptyString => True
  end.

(** A repetition of a character class, written out on the text. *)
Fixpoint star_cls {A : Type} (p : ascii → bool)
    (k : string → groups → option A) (s : string) (g : groups) : option A :=
  match s with
  | String a s' =>
      if p a then
        match star_cls p k s' g with
        | Some x => Some x
        | None => k s g
        end
      else k s g
  | EmptyString => k s g
  end.

(** The first test of the chain. *)
Definition helper_only (name : string) : bool :=
  endswith name "_FLAG" || endswith name "MASK".

(** The names a collector holds: the members of its sets and the keys of
    its dicts, all of which are rendered. *)
Definition collected (c : MacroCollector) : gset string :=
  statuses c ∪ key_types c ∪ dom (key_types_from_curve c) ∪ ecc_curves c
  ∪ algorithms c ∪ hash_algorithms c ∪ block_cipher_padding_modes c
  ∪ dom (algorithms_from_hash c) ∪ key_usages c.

(** No tester stored in a dict is a helper-only name. *)
Definition testers_kept (c : MacroCollector) : Prop :=
  ∀ k v,
    key_types_from_curve c !! k = Some v ∨ algorithms_from_hash c !! k = Some v →
    helper_only v = false.

(** Putting [infix] after [prefix] does not make a helper-only name. *)
Definition keeps_helper_test (prefix infix : string) : Prop :=
  ∀ rest,
    helper_only (prefix +:+ rest) = false →
    helper_only (prefix +:+ infix +:+ rest) = false.

(** ** The nine categories *)

Inductive category : Type :=
| Statuses | KeyTypes | KeyTypesFromCurve | EccCurves | Algorithms
| HashAlgorithms | BlockCipherPaddingModes | AlgorithmsFromHash | KeyUsages.

(** The names of a category: the members of its set, the keys of its dict. *)
Definition members (k : category) (c : MacroCollector) : gset string :=
  match k with
  | Statuses => statuses c
  | KeyTypes => key_types c
  | KeyTypesFromCurve => dom (key_types_from_curve c)
  | EccCurves => ecc_curves c
  | Algorithms => algorithms c
  | HashAlgorithms => hash_algorithms c
  | BlockCipherPaddingModes => block_cipher_padding_modes c
  | AlgorithmsFromHash => dom (algorithms_from_hash c)
  | KeyUsages => key_usages c
  end.

(** What the rule chain lets into each category. *)
Definition shape (k : category) (name : string) : bool :=
  match k with
  | Statuses => startswith name "PSA_ERROR_" || Str.eqb name "PSA_SUCCESS"
  | KeyTypes | KeyTypesFromCurve => startswith name "PSA_KEY_TYPE_"
  | EccCurves => startswith name "PSA_ECC_CURVE_"
  | Algorithms | HashAlgorithms =>
      startswith name "PSA_ALG_"
      && negb (startswith name "PSA_ALG_BLOCK_CIPHER_PAD_")
  | BlockCipherPaddingModes => startswith name "PSA_ALG_BLOCK_CIPHER_PAD_"
  | AlgorithmsFromHash => startswith name "PSA_ALG_"
  | KeyUsages => startswith name "PSA_KEY_USAGE_"
  end.

(** The pairs of categories that can hold one name: a hash algorithm is an
    algorithm, and a name defined both without a parameter and with the
    parameter [curve] or [hash_alg] is in a set and in a dict. *)
Definition may_share (k1 k2 : category) : bool :=
  match k1, k2 with
  | Statuses, Statuses | KeyTypes, KeyTypes
  | KeyTypesFromCurve, KeyTypesFromCurve | EccCurves, EccCurves
  | Algorithms, Algorithms | HashAlgorithms, HashAlgorithms
  | BlockCipherPaddingModes, BlockCipherPaddingModes
  | AlgorithmsFromHash, AlgorithmsFromHash | KeyUsages, KeyUsages => true
  | Algorithms, HashAlgorithms | HashAlgorithms, Algorithms => true
  | KeyTypes, KeyTypesFromCurve | KeyTypesFromCurve, KeyTypes => true
  | Algorithms, AlgorithmsFromHash | AlgorithmsFromHash, Algorithms => true
  | HashAlgorithms, AlgorithmsFromHash
  | AlgorithmsFromHash, HashAlgorithms => true
  | BlockCipherPaddingModes, AlgorithmsFromHash
  | AlgorithmsFromHash, BlockCipherPaddingModes => true
  | _, _ => false
  end.

Definition well_shaped (c : MacroCollector) : Prop :=
  ∀ k x, x ∈ members k c → shape k x = true.

(** A fragment lists the names of a set in ascending order: it is the
    join of the entries made from the names, taken in a sorted list that
    holds each name of the set once. *)
Definition lists_in_order (fragment sep : string) (make : string → string)
    (s : gset string) : Prop :=
  ∃ l, l ≡ₚ elements s ∧ NoDup l ∧ Sorted String.le l
       ∧ fragment = join sep (map make l).

(** The write gets the whole text through. *)
Definition write_completes (e : env) (text : string) : bool :=
  match write_limit e with
  | Some n => negb (n <? len text)
  | None => true
  end.

(** ** More vocabulary *)

(** What [definition_re] takes a line apart into: blanks, the hash sign,
    blanks, the word define, blanks, the name, then blanks or a
    parenthesised parameter with blanks after it, then the definition,
    which runs up to a newline or to the end of the text. *)
Definition definition_line (line name : string) (parameter : option string)
    (definition : string) : Prop :=
  ∃ b1 b2 b3 mid rest,
    line = b1 +:+ "#" +:+ b2 +:+ "define" +:+ b3 +:+ name +:+ mid
           +:+ definition +:+ rest
    ∧ all_chars is_space b1 = true
    ∧ all_chars is_space b2 = true
    ∧ (b3 ≠ "" ∧ all_chars is_space b3 = true)
    ∧ (name ≠ "" ∧ all_chars is_word name = true)
    ∧ match parameter with
      | None => mid ≠ "" ∧ all_chars is_space mid = true
      | Some p =>
          p ≠ "" ∧ all_chars is_word p = true
          ∧ ∃ b4, mid = "(" +:+ p +:+ ")" +:+ b4 ∧ all_chars is_space b4 = true
      end
    ∧ (definition ≠ "" ∧ all_chars is_dot definition = true)
    ∧ head_not is_dot rest.

(** The tester names that [read_line] makes, as it slices them. *)
Definition key_type_tester (name : string) : string :=
  take_str 13 name +:+ "IS_" +:+ drop_str 13 name.

Definition algorithm_tester (name : string) : string :=
  if in_list name randomized_names
  then take_str 8 name +:+ "IS_RANDOMIZED_" +:+ drop_str 8 name
  else take_str 8 name +:+ "IS_" +:+ drop_str 8 name.

(** The macros that reach the two rules with a parameter. *)
Definition stores_key_type_tester (name : string) (parameter : option string)
    : bool :=
  negb (helper_only name) && startswith name "PSA_KEY_TYPE_"
  && param_is parameter "curve".

Definition stores_algorithm_tester (name : string) (parameter : option string)
    : bool :=
  negb (helper_only name) && startswith name "PSA_ALG_"
  && param_is parameter "hash_alg".

(** The fragment rendered for a category, and the entry of a name in it. *)
Definition fragment (iter : gset string → list string) (k : category)
    (c : MacroCollector) : string :=
  match k with
  | Statuses => make_status_cases iter c
  | KeyTypes => make_key_type_cases iter c
  | KeyTypesFromCurve => make_key_type_code iter c
  | EccCurves => make_ecc_curve_cases iter c
  | Algorithms => make_algorithm_cases iter c
  | HashAlgorithms => make_hash_algorithm_cases iter c
  | BlockCipherPaddingModes => make_padding_mode_cases iter c
  | AlgorithmsFromHash => make_algorithm_code iter c
  | KeyUsages => make_key_usage_code iter c
  end.

Definition entry (k : category) (c : MacroCollector) (name : string) : string :=
  match k with
  | Statuses | EccCurves | HashAlgorithms => make_return_case name
  | KeyTypes | Algorithms => make_append_case name
  | BlockCipherPaddingModes => make_inner_append_case name
  | KeyTypesFromCurve =>
      make_key_type_from_curve_code name (key_types_from_curve c !!! name)
  | AlgorithmsFromHash =>
      make_algorithm_from_hash_code name (algorithms_from_hash c !!! name)
  | KeyUsages => make_bit_test "usage" name
  end.

(** The test of the rule that fills each category, as the chain writes
    it; one rule fills the two algorithm sets. *)
Definition rule_test (k : category) (name : string)
    (parameter : option string) : bool :=
  match k with
  | Statuses =>
      (startswith name "PSA_ERROR_" || Str.eqb name "PSA_SUCCESS")
      && not_ parameter
  | KeyTypes => startswith name "PSA_KEY_TYPE_" && not_ parameter
  | KeyTypesFromCurve =>
      startswith name "PSA_KEY_TYPE_" && param_is parameter "curve"
  | EccCurves => startswith name "PSA_ECC_CURVE_" && not_ parameter
  | BlockCipherPaddingModes =>
      startswith name "PSA_ALG_BLOCK_CIPHER_PAD_" && not_ parameter
  | Algorithms | HashAlgorithms => startswith name "PSA_ALG_" && not_ parameter
  | AlgorithmsFromHash =>
      startswith name "PSA_ALG_" && param_is parameter "hash_alg"
  | KeyUsages => startswith name "PSA_KEY_USAGE_" && not_ parameter
  end.

(** What the body of the rule asks for, past its test, before it adds the
    name to the category. *)
Definition rule_body (k : category) (name definition : string) : bool :=
  match k with
  | Algorithms => negb (in_list name base_names)
  | HashAlgorithms =>
      negb (in_list name base_names) && re_search hash_re definition
  | _ => true
  end.

(** The macro is taken before the rule of the category is tried: its name
    ends in [_FLAG] or [MASK], or the category is an algorithm set and the
    rule of the padding modes, which comes first, passes it. *)
Definition taken_before (k : category) (name : string)
    (parameter : option string) : bool :=
  helper_only name
  || match k with
     | Algorithms | HashAlgorithms =>
         rule_test BlockCipherPaddingModes name parameter
     | _ => false
     end.

(** Who the chain lets into each category. *)
Definition admits (k : category) (name : string) (parameter : option string)
    (definition : string) : bool :=
  negb (taken_before k name parameter)
  && rule_test k name parameter && rule_body k name definition.

(** The pairs of categories whose tests can pass one macro: a category
    and itself, the two algorithm sets, and the padding modes with
    either algorithm set. *)
Definition tests_overlap (k1 k2 : category) : bool :=
  match k1, k2 with
  | Statuses, Statuses | KeyTypes, KeyTypes
  | KeyTypesFromCurve, KeyTypesFromCurve | EccCurves, EccCurves
  | Algorithms, Algorithms | HashAlgorithms, HashAlgorithms
  | BlockCipherPaddingModes, BlockCipherPaddingModes
  | AlgorithmsFromHash, AlgorithmsFromHash | KeyUsages, KeyUsages => true
  | Algorithms, HashAlgorithms | HashAlgorithms, Algorithms => true
  | BlockCipherPaddingModes, Algorithms
  | Algorithms, BlockCipherPaddingModes => true
  | BlockCipherPaddingModes, HashAlgorithms
  | HashAlgorithms, BlockCipherPaddingModes => true
  | _, _ => false
  end.

(** * Properties *)

(** ** Facts about strings *)

Lemma app_cons (x : ascii) (a b : string) :
  String x a +:+ b = String x (a +:+ b).
Proof. reflexivity. Qed.

Lemma app_empty (b : string) : "" +:+ b = b.
Proof. reflexivity. Qed.

Lemma len_cons (x : ascii) (a : string) : len (String x a) = S (len a).
Proof. reflexivity. Qed.

Lemma len_app (a b : string) : len (a +:+ b) = len a + len b.
Proof.
  induction a as [|x a IH]; [reflexivity|].
  rewrite app_cons, !len_cons, IH. reflexivity.
Qed.

Lemma app_nil_r_str (a : string) : a +:+ "" = a.
Proof.
  induction a as [|x a IH]; [reflexivity|].
  rewrite app_cons. f_equal. exact IH.
Qed.

Lemma app_assoc_str (a b c : string) : (a +:+ b) +:+ c = a +:+ (b +:+ c).
Proof.
  induction a as [|x a IH]; [reflexivity|].
  rewrite !app_cons. f_equal. exact IH.
Qed.

Lemma take_str_app (a b : string) : take_str (len a) (a +:+ b) = a.
Proof.
  induction a as [|x a IH]; [destruct b; reflexivity|].
  rewrite app_cons, len_cons. cbn. f_equal. exact IH.
Qed.

Lemma drop_str_app (a b : string) : drop_str (len a) (a +:+ b) = b.
Proof.
  induction a as [|x a IH]; [destruct b; reflexivity|].
  rewrite app_cons, len_cons. cbn. exact IH.
Qed.

Lemma drop_str_app_add (a r : string) (n : nat) :
  drop_str (len a + n) (a +:+ r) = drop_str n r.
Proof.
  induction a as [|x a IH]; [reflexivity|].
  rewrite app_cons, len_cons. cbn [Nat.add drop_str]. exact IH.
Qed.

Lemma consumed_app (a b : string) : consumed (a +:+ b) b = a.
Proof.
  unfold consumed. rewrite len_app.
  replace (len a + len b - len b) with (len a) by lia.
  apply take_str_app.
Qed.

Lemma startswith_app (s p : string) :
  startswith s p = true ↔ ∃ r, s = p +:+ r.
Proof.
  revert s. induction p as [|a p IH]; intros s.
  - split; [exists s; reflexivity | reflexivity].
  - destruct s as [|b s].
    + split; [discriminate | intros [r Hr]; discriminate].
    + cbn [startswith]. destruct (Ascii.eqb_spec a b) as [->|Hab].
      * rewrite IH. split; intros [r Hr]; exists r.
        -- rewrite app_cons. f_equal. exact Hr.
        -- rewrite app_cons in Hr. injection Hr; auto.
      * split; [discriminate|].
        intros [r Hr]. rewrite app_cons in Hr. injection Hr; intros; congruence.
Qed.

Lemma startswith_both (s p q : string) :
  startswith s p = true → startswith s q = true → len p <= len q →
  startswith q p = true.
Proof.
  revert s q. induction p as [|a p IH]; intros s q Hp Hq Hl; [reflexivity|].
  destruct q as [|b q]; [rewrite len_cons in Hl; cbn in Hl; lia|].
  destruct s as [|c s]; [discriminate|].
  cbn [startswith] in Hp, Hq |- *.
  destruct (Ascii.eqb_spec a c) as [->|]; [|discriminate].
  destruct (Ascii.eqb_spec b c) as [->|]; [|discriminate].
  rewrite Ascii.eqb_refl. apply (IH s q Hp Hq).
  rewrite !len_cons in Hl. lia.
Qed.

Lemma prefix_clash (s p q : string) :
  startswith s p = true →
  startswith p q = false → startswith q p = false →
  startswith s q = false.
Proof.
  intros Hp Hpq Hqp. destruct (startswith s q) eqn:Hq; [|reflexivity].
  destruct (le_ge_dec (len p) (len q)) as [Hl|Hl].
  - rewrite (startswith_both s p q Hp Hq Hl) in Hqp. discriminate.
  - rewrite (startswith_both s q p Hq Hp Hl) in Hpq. discriminate.
Qed.

(** A suffix no longer than the second part of a text is a suffix of that
    part. *)
Lemma endswith_app (a r suf : string) :
  len suf <= len r → endswith (a +:+ r) suf = endswith r suf.
Proof.
  intros H. unfold endswith. rewrite len_app.
  replace (len suf <=? len a + len r) with true
    by (symmetry; apply Nat.leb_le; lia).
  replace (len suf <=? len r) with true by (symmetry; apply Nat.leb_le; lia).
  replace (len a + len r - len suf) with (len a + (len r - len suf)) by lia.
  rewrite drop_str_app_add. reflexivity.
Qed.

Lemma in_list_In (x : string) (l : list string) :
  in_list x l = true ↔ In x l.
Proof.
  unfold in_list. rewrite existsb_exists. split.
  - intros (y & Hy & He). apply Str.eqb_eq in He. subst. exact Hy.
  - intros H. exists x. split; [exact H | apply Str.eqb_refl].
Qed.

Lemma take_drop_while (p : ascii → bool) (s : string) :
  take_while p s +:+ drop_while p s = s.
Proof.
  induction s as [|a s IH]; [reflexivity|].
  cbn. destruct (p a); [rewrite app_cons; f_equal; exact IH | reflexivity].
Qed.

Lemma drop_while_head (p : ascii → bool) (s : string) :
  match drop_while p s with
  | String a _ => p a = false
  | EmptyString => True
  end.
Proof.
  induction s as [|a s IH]; [exact I|].
  cbn. destruct (p a) eqn:Hp; [exact IH | exact Hp].
Qed.

Lemma all_chars_app (p : ascii → bool) (a b : string) :
  all_chars p (a +:+ b) = all_chars p a && all_chars p b.
Proof.
  induction a as [|x a IH]; [reflexivity|].
  rewrite app_cons. cbn [all_chars]. rewrite IH, andb_assoc. reflexivity.
Qed.

Lemma drop_while_run (p : ascii → bool) (pre s : string) :
  all_chars p pre = true → head_not p s → drop_while p (pre +:+ s) = s.
Proof.
  intros Hpre Hs. induction pre as [|a pre IH].
  - rewrite app_empty. destruct s as [|b s]; [reflexivity|].
    cbn in Hs |- *. rewrite Hs. reflexivity.
  - cbn [all_chars] in Hpre. apply andb_true_iff in Hpre as [Ha Hpre].
    rewrite app_cons. cbn [drop_while]. rewrite Ha. apply IH. exact Hpre.
Qed.

(** Where a run of a class, followed by a character outside it, can be cut
    after some characters of the class. *)
Lemma run_split (p : ascii → bool) (c : ascii) (rest : string) :
  p c = false →
  ∀ w pre s',
    all_chars p pre = true →
    w +:+ String c rest = pre +:+ s' →
    ∃ t, w = pre +:+ t ∧ s' = t +:+ String c rest.
Proof.
  intros Hc w. induction w as [|a w IH]; intros pre s' Hpre Heq.
  - destruct pre as [|b pre].
    + exists "". rewrite app_empty in Heq. auto.
    + rewrite app_empty, app_cons in Heq. injection Heq as <- _.
      cbn [all_chars] in Hpre. rewrite Hc in Hpre. discriminate.
  - destruct pre as [|b pre].
    + exists (String a w). rewrite app_empty in Heq. auto.
    + rewrite !app_cons in Heq. injection Heq as <- Heq.
      cbn [all_chars] in Hpre. apply andb_true_iff in Hpre as [_ Hpre].
      destruct (IH pre s' Hpre Heq) as (t & -> & ->).
      exists t. auto.
Qed.

(** ** Facts about the matcher *)

Lemma rmatch_seq {A : Type} (r1 r2 : regex) (s : string) (g : groups)
    (k : string → groups → option A) :
  rmatch (Seq r1 r2) s g k = rmatch r1 s g (λ s' g', rmatch r2 s' g' k).
Proof. reflexivity. Qed.

Lemma rmatch_alt {A : Type} (r1 r2 : regex) (s : string) (g : groups)
    (k : string → groups → option A) :
  rmatch (Alt r1 r2) s g k
  = match rmatch r1 s g k with
    | Some x => Some x
    | None => rmatch r2 s g k
    end.
Proof. reflexivity. Qed.

Lemma rmatch_grp {A : Type} (i : nat) (r : regex) (s : string) (g : groups)
    (k : string → groups → option A) :
  rmatch (Grp i r) s g k
  = rmatch r s g (λ s' g', k s' (set_group i (consumed s s') g')).
Proof. reflexivity. Qed.

Lemma rmatch_cls {A : Type} (p : ascii → bool) (a : ascii) (s : string)
    (g : groups) (k : string → groups → option A) :
  rmatch (Cls p) (String a s) g k = if p a then k s g else None.
Proof. reflexivity. Qed.

Lemma rmatch_chr {A : Type} (c a : ascii) (s : string)
    (g : groups) (k : string → groups → option A) :
  rmatch (Chr c) (String a s) g k = if Ascii.eqb a c then k s g else None.
Proof. reflexivity. Qed.

Lemma star_loop_cls {A : Type} (p : ascii → bool)
    (k : string → groups → option A) (n : nat) :
  ∀ s g, len s <= n → star_loop (rmatch (Cls p)) k n s g = star_cls p k s g.
Proof.
  induction n as [|n IH]; intros s g Hn.
  - destruct s; [reflexivity | rewrite len_cons in Hn; lia].
  - destruct s as [|a s]; [reflexivity|].
    rewrite len_cons in Hn.
    cbn [star_loop star_cls rmatch]. destruct (p a); [|reflexivity].
    rewrite len_cons.
    replace (len s <? S (len s)) with true by (symmetry; apply Nat.ltb_lt; lia).
    rewrite IH by lia. reflexivity.
Qed.

Lemma rmatch_star_cls {A : Type} (p : ascii → bool)
    (k : string → groups → option A) (s : string) (g : groups) :
  rmatch (Star (Cls p)) s g k = star_cls p k s g.
Proof. cbn [rmatch]. apply star_loop_cls. lia. Qed.

(** When what follows cannot fail, the repetition takes the longest run. *)
Lemma star_cls_greedy {A : Type} (p : ascii → bool)
    (k : string → groups → option A) (g : groups) :
  (∀ s, is_Some (k s g)) →
  ∀ s, star_cls p k s g = k (drop_while p s) g.
Proof.
  intros Hk s. induction s as [|a s IH]; [reflexivity|].
  cbn. destruct (p a); [|reflexivity].
  rewrite IH. destruct (Hk (drop_while p s)) as [x ->]. reflexivity.
Qed.

(** A repetition fails when what follows fails after every run of the
    class that the text starts with. *)
Lemma star_cls_none {A : Type} (p : ascii → bool)
    (k : string → groups → option A) (g : groups) :
  ∀ s,
    (∀ pre s', s = pre +:+ s' → all_chars p pre = true → k s' g = None) →
    star_cls p k s g = None.
Proof.
  induction s as [|a s IH]; intros Hk.
  - apply (Hk "" ""); reflexivity.
  - assert (k (String a s) g = None) as Hhere by (apply (Hk ""); reflexivity).
    cbn [star_cls]. destruct (p a) eqn:Hp; [|exact Hhere].
    rewrite IH; [exact Hhere|].
    intros pre s' -> Hall. apply (Hk (String a pre)); [reflexivity|].
    cbn [all_chars]. rewrite Hp, Hall. reflexivity.
Qed.

(** A successful match ends in a successful call of the continuation, on
    a remainder of the text. *)
Lemma rmatch_some (r : regex) :
  ∀ (A : Type) (k : string → groups → option A) s g x,
    rmatch r s g k = Some x →
    ∃ pre s' g', s = pre +:+ s' ∧ k s' g' = Some x.
Proof.
  induction r as [|c|p|r1 IH1 r2 IH2|r1 IH1 r2 IH2|r1 IH1|i r1 IH1];
    intros A k s g x H; cbn [rmatch] in H.
  - exists "", s, g. auto.
  - destruct s as [|a s]; [discriminate|].
    destruct (Ascii.eqb a c); [|discriminate].
    exists (String a ""), s, g. auto.
  - destruct s as [|a s]; [discriminate|].
    destruct (p a); [|discriminate].
    exists (String a ""), s, g. auto.
  - apply IH1 in H as (pre1 & s1 & g1 & -> & H).
    apply IH2 in H as (pre2 & s2 & g2 & -> & H).
    exists (pre1 +:+ pre2), s2, g2. rewrite app_assoc_str. auto.
  - destruct (rmatch r1 s g k) eqn:H1.
    + injection H as ->. eapply IH1; eauto.
    + eapply IH2; eauto.
  - revert H. generalize (len s) as n. intros n. revert s g.
    induction n as [|n IHn]; intros s g H; cbn [star_loop] in H.
    + exists "", s, g. auto.
    + match type of H with
      | match ?m with _ => _ end = _ => destruct m eqn:H1
      end.
      * injection H as ->.
        apply IH1 in H1 as (pre1 & s1 & g1 & -> & H1).
        destruct (len s1 <? len (pre1 +:+ s1)); [|discriminate].
        apply IHn in H1 as (pre2 & s2 & g2 & -> & H2).
        exists (pre1 +:+ pre2), s2, g2. rewrite app_assoc_str. auto.
      * exists "", s, g. auto.
  - apply IH1 in H as (pre1 & s1 & g1 & -> & H).
    eauto.
Qed.

(** One step along a sequence: the match of the first element eats a
    further piece of the line. *)
Lemma rmatch_seq_some {A : Type} (r1 r2 : regex)
    (k : string → groups → option A) (line pre s : string) (g : groups) (x : A) :
  line = pre +:+ s →
  rmatch (Seq r1 r2) s g k = Some x →
  ∃ pre' s' g', line = pre' +:+ s' ∧ rmatch r2 s' g' k = Some x.
Proof.
  intros -> H. rewrite rmatch_seq in H.
  apply rmatch_some in H as (p & s' & g' & -> & H).
  exists (pre +:+ p), s', g'. rewrite app_assoc_str. auto.
Qed.

Ltac seq_step Hline Hm :=
  let p := fresh "pre" in
  let s := fresh "s" in
  let g := fresh "g" in
  let Hl := fresh "Hline" in
  let H := fresh "Hm" in
  destruct (rmatch_seq_some _ _ _ _ _ _ _ _ Hline Hm) as (p & s & g & Hl & H);
  clear Hline Hm; rename Hl into Hline; rename H into Hm.

(** One or more characters of a class, on a run of the class followed by a
    character outside it: the match fails when what follows fails at
    every cut of the run. *)
Lemma plus_run_none {A : Type} (p : ascii → bool) (c : ascii)
    (w rest : string) (k : string → groups → option A) (g : groups) :
  all_chars p w = true →
  p c = false →
  (∀ t, all_chars p t = true → k (t +:+ String c rest) g = None) →
  rmatch (Plus (Cls p)) (w +:+ String c rest) g k = None.
Proof.
  intros Hw Hc Hk. unfold Plus. rewrite rmatch_seq.
  destruct w as [|a w].
  - rewrite app_empty, rmatch_cls, Hc. reflexivity.
  - rewrite app_cons, rmatch_cls.
    cbn [all_chars] in Hw. apply andb_true_iff in Hw as [-> Hw].
    rewrite rmatch_star_cls. apply star_cls_none.
    intros pre s' Heq Hpre.
    destruct (run_split p c rest Hc w pre s' Hpre Heq) as (t & -> & ->).
    apply Hk. rewrite all_chars_app in Hw.
    apply andb_true_iff in Hw as [_ Hw]. exact Hw.
Qed.

(** One or more characters of a class fail on a text that does not start
    with one. *)
Lemma plus_head_none {A : Type} (p : ascii → bool) (s : string)
    (k : string → groups → option A) (g : groups) :
  head_not p s → rmatch (Plus (Cls p)) s g k = None.
Proof.
  intros H. unfold Plus. rewrite rmatch_seq.
  destruct s as [|a s]; [reflexivity|].
  rewrite rmatch_cls. cbn in H. rewrite H. reflexivity.
Qed.

(** Zero or more characters of a class take nothing from a text that does
    not start with one. *)
Lemma star_head_stop {A : Type} (p : ascii → bool) (s : string)
    (k : string → groups → option A) (g : groups) :
  head_not p s → rmatch (Star (Cls p)) s g k = k s g.
Proof.
  intros H. rewrite rmatch_star_cls.
  destruct s as [|a s]; [reflexivity|].
  cbn in H |- *. rewrite H. reflexivity.
Qed.

Lemma word_char_differs (b c : ascii) :
  is_word b = true → is_word c = false → Ascii.eqb b c = false.
Proof.
  intros Hb Hc. destruct (Ascii.eqb_spec b c) as [->|]; [congruence | reflexivity].
Qed.

Lemma word_not_space (b : ascii) : is_word b = true → is_space b = false.
Proof.
  destruct b as [[] [] [] [] [] [] [] []]; vm_compute; congruence.
Qed.

(** The text after a run of word characters and a character that is
    neither a word character nor a blank does not start with a blank. *)
Lemma run_head_not_space (t : string) (c : ascii) (rest : string) :
  all_chars is_word t = true → is_space c = false →
  head_not is_space (t +:+ String c rest).
Proof.
  intros Ht Hc. destruct t as [|b t]; [exact Hc|].
  rewrite app_cons. cbn in Ht |- *.
  apply andb_true_iff in Ht as [Hb _]. apply word_not_space. exact Hb.
Qed.

(** ** The definition pattern *)

(** The optional comment opener at the end of [definition_re] never
    fails and captures nothing. *)
Lemma comment_opener_total (s : string) (g : groups) :
  rmatch (Opt (Seq (Chr "/") (Cls is_star_or_slash))) s g (λ _ g', Some g')
  = Some g.
Proof.
  cbn [rmatch Opt].
  destruct s as [|a s]; [reflexivity|].
  destruct (Ascii.eqb a "/"); [|reflexivity].
  destruct s as [|b s]; [reflexivity|].
  destruct (is_star_or_slash b); reflexivity.
Qed.

(** Group 3 followed by the optional comment opener: the group takes the
    rest of the line. *)
Lemma definition_tail (s : string) (g gf : groups) :
  rmatch (Seq (Grp 3 (Plus (Cls is_dot)))
              (Opt (Seq (Chr "/") (Cls is_star_or_slash))))
         s g (λ _ g', Some g') = Some gf →
  ∃ a s', s = String a s' ∧ is_dot a = true
          ∧ gf = set_group 3 (String a (take_while is_dot s')) g.
Proof.
  intros H. unfold Plus in H.
  rewrite rmatch_seq, rmatch_grp, rmatch_seq in H.
  destruct s as [|a s']; [discriminate|].
  rewrite rmatch_cls in H.
  destruct (is_dot a) eqn:Ha; [|discriminate].
  exists a, s'. split; [reflexivity|]. split; [exact Ha|].
  rewrite rmatch_star_cls, star_cls_greedy in H.
  - rewrite comment_opener_total in H. injection H as <-.
    f_equal.
    rewrite <- (take_drop_while is_dot s') at 1.
    rewrite <- app_cons. apply consumed_app.
  - intros s0. rewrite comment_opener_total. eauto.
Qed.

(** Whatever matched, the definition text of a line is followed in the line
    by a newline or by nothing: it is never cut short. *)
Lemma definition_runs_to_end_of_line (line name definition : string)
    (parameter : option string) :
  match_definition line = Some (name, parameter, definition) →
  ∃ pre rest,
    line = pre +:+ definition +:+ rest
    ∧ match rest with
      | String a _ => code a = 10
      | EmptyString => True
      end.
Proof.
  unfold match_definition, re_match. intros H.
  destruct (rmatch definition_re line no_groups (λ _ g, Some g))
    as [gf|] eqn:Hm; [|discriminate H].
  assert (line = "" +:+ line) as Hline by reflexivity.
  unfold definition_re in Hm. cbn [Seqs] in Hm.
  do 7 seq_step Hline Hm.
  apply definition_tail in Hm as (a & s' & -> & Ha & ->).
  unfold set_group in H. cbn [Nat.eqb] in H.
  match type of H with
  | match ?o with _ => _ end = _ => destruct o; [|discriminate H]
  end.
  injection H as _ _ <-.
  eexists _, (drop_while is_dot s'). split.
  - rewrite Hline. f_equal. rewrite app_cons. f_equal.
    symmetry. apply take_drop_while.
  - pose proof (drop_while_head is_dot s') as Hd.
    destruct (drop_while is_dot s') as [|b r]; [exact I|].
    unfold is_dot in Hd. apply negb_false_iff, Nat.eqb_eq in Hd. exact Hd.
Qed.

(** C3, at two lines that end in a comment opener.  The claim wants the
    opener left out of the definition text; the text of group 3 keeps it,
    since the group is greedy and the optional opener after it is left
    with nothing to take. *)
Theorem trailing_comment_opener_kept :
  match_definition
    ("#define PSA_KEY_USAGE_EXPORT ((psa_key_usage_t)0x00000001) /*" +:+ nl)
  = Some ("PSA_KEY_USAGE_EXPORT", None, "((psa_key_usage_t)0x00000001) /*")
  ∧ match_definition
      ("#define PSA_KEY_USAGE_EXPORT ((psa_key_usage_t)0x00000001) //" +:+ nl)
    = Some ("PSA_KEY_USAGE_EXPORT", None, "((psa_key_usage_t)0x00000001) //").
Proof. split; vm_compute; reflexivity. Qed.

(** A line on which blanks are not followed by a hash sign does not
    match: blank lines, and lines that are not directives. *)
Lemma not_a_directive_no_match (line : string) :
  head_not (λ a, Ascii.eqb a "#") (drop_while is_space line) →
  match_definition line = None.
Proof.
  intros H. unfold match_definition, re_match.
  enough (rmatch definition_re line no_groups (λ _ g, Some g) = None) as ->
    by reflexivity.
  unfold definition_re. cbn [Seqs].
  rewrite rmatch_seq, rmatch_star_cls. apply star_cls_none.
  intros pre s' -> Hpre. rewrite rmatch_seq.
  destruct s' as [|a s']; [reflexivity|].
  rewrite rmatch_chr.
  destruct (is_space a) eqn:Ha.
  - destruct (Ascii.eqb_spec a "#") as [->|]; [discriminate | reflexivity].
  - rewrite drop_while_run in H by assumption.
    cbn in H. rewrite H. reflexivity.
Qed.

(** A macro with two or more parameters does not match: after the first
    parameter name the pattern wants a closing parenthesis and meets a
    comma, and no shorter name or parameter helps. *)
Lemma multi_parameter_no_match (name param rest : string) :
  all_chars is_word name = true →
  all_chars is_word param = true →
  match_definition ("#define " +:+ name +:+ "(" +:+ param +:+ "," +:+ rest)
  = None.
Proof.
  intros Hname Hparam. unfold match_definition, re_match.
  enough (rmatch definition_re
            ("#define " +:+ name +:+ "(" +:+ param +:+ "," +:+ rest)
            no_groups (λ _ g, Some g) = None) as -> by reflexivity.
  unfold definition_re. cbn [Seqs Lit].
  rewrite !app_cons, !app_empty.
  (* the blanks before the hash sign, the hash sign, the blanks after it *)
  rewrite rmatch_seq, star_head_stop by reflexivity.
  rewrite rmatch_seq, rmatch_chr, Ascii.eqb_refl.
  rewrite rmatch_seq, star_head_stop by reflexivity.
  (* the word define *)
  rewrite rmatch_seq.
  do 6 (rewrite rmatch_seq, rmatch_chr, Ascii.eqb_refl).
  change (rmatch Eps ?s ?g ?k) with (k s g). cbv beta.
  (* the blanks after it *)
  rewrite rmatch_seq. unfold Plus at 1.
  rewrite rmatch_seq, rmatch_cls. change (is_space " ") with true. cbv iota.
  rewrite star_head_stop
    by (apply run_head_not_space; [exact Hname | reflexivity]).
  (* group 1: the name, or a shorter piece of it *)
  rewrite rmatch_seq, rmatch_grp.
  apply plus_run_none; [exact Hname | reflexivity |].
  intros t Ht. rewrite rmatch_seq, rmatch_alt.
  rewrite plus_head_none
    by (apply run_head_not_space; [exact Ht | reflexivity]).
  destruct t as [|b t].
  - (* the whole name: group 2, then a comma where a parenthesis is due *)
    rewrite app_empty.
    rewrite rmatch_seq, rmatch_chr, Ascii.eqb_refl.
    rewrite rmatch_seq, rmatch_grp.
    apply plus_run_none; [exact Hparam | reflexivity |].
    intros t2 Ht2. rewrite rmatch_seq.
    destruct t2 as [|b2 t2].
    + rewrite app_empty. reflexivity.
    + rewrite app_cons, rmatch_chr.
      cbn [all_chars] in Ht2. apply andb_true_iff in Ht2 as [Hb2 _].
      rewrite (word_char_differs b2 ")" Hb2) by reflexivity. reflexivity.
  - (* a shorter piece: a word character where a parenthesis is due *)
    rewrite app_cons.
    rewrite rmatch_seq, rmatch_chr.
    cbn [all_chars] in Ht. apply andb_true_iff in Ht as [Hb _].
    rewrite (word_char_differs b "(" Hb) by reflexivity. reflexivity.
Qed.

(** C9. A line that does not match the definition pattern leaves the
    collector as it was, and [read_line] always returns (it is a total
    function: there is no error to raise).  Such are the lines on which
    blanks are not followed by a hash sign (blank lines, lines that are
    not directives) and the definitions of macros with two or more
    parameters. *)
Theorem read_line_no_match (c : MacroCollector) (line : string) :
  (match_definition line = None → read_line c line = c)
  ∧ (head_not (λ a, Ascii.eqb a "#") (drop_while is_space line) →
     read_line c line = c)
  ∧ (∀ name param rest,
       all_chars is_word name = true →
       all_chars is_word param = true →
       line = "#define " +:+ name +:+ "(" +:+ param +:+ "," +:+ rest →
       read_line c line = c).
Proof.
  assert (match_definition line = None → read_line c line = c) as H
    by (unfold read_line; intros ->; reflexivity).
  split; [exact H|]. split.
  - intros Hd. apply H, not_a_directive_no_match, Hd.
  - intros name param rest Hn Hp ->. apply H, multi_parameter_no_match; assumption.
Qed.

Lemma read_line_no_match_witness :
  read_line init ("#define PSA_KEY_DERIVATION(alg, hash) (alg | hash)" +:+ nl)
  = init
  ∧ read_line init ("/* Key types */" +:+ nl) = init
  ∧ read_line init ("#define PSA_BLOCK_CIPHER_BLOCK_SIZE(type,alg) 16" +:+ nl)
    = init.
Proof.
  split; [|split].
  - apply (proj1 (read_line_no_match init _)). vm_compute. reflexivity.
  - apply (proj1 (proj2 (read_line_no_match init _))). vm_compute. reflexivity.
  - apply (proj2 (proj2 (read_line_no_match init _))
             "PSA_BLOCK_CIPHER_BLOCK_SIZE" "type" ("alg) 16" +:+ nl));
      vm_compute; reflexivity.
Defined.

(** ** The rule chain *)

Ltac split_bools :=
  repeat match goal with
         | H : _ && _ = true |- _ => apply andb_true_iff in H as [? ?]
         | H : _ || _ = false |- _ => apply orb_false_iff in H as [? ?]
         | H : negb _ = true |- _ => apply negb_true_iff in H
         end.

(** Proves that [name] does not start with a literal prefix, from a
    hypothesis that it starts with another one. *)
Ltac other_prefix H :=
  apply (prefix_clash _ _ _ H); reflexivity.

Ltac unfold_updates :=
  unfold add_status, add_key_type, set_key_type_from_curve, add_ecc_curve,
    add_algorithm, add_hash_algorithm, add_block_cipher_padding_mode,
    set_algorithm_from_hash, add_key_usage;
  cbn [statuses key_types key_types_from_curve ecc_curves algorithms
       hash_algorithms block_cipher_padding_modes algorithms_from_hash
       key_usages].

Lemma add_twice (x : string) (s : gset string) :
  {[x]} ∪ ({[x]} ∪ s) = {[x]} ∪ s.
Proof. by rewrite (assoc_L (∪)), (idemp_L (∪)). Qed.

Lemma set_twice (k v : string) (d : gmap string string) :
  <[k:=v]> (<[k:=v]> d) = <[k:=v]> d.
Proof. apply insert_insert_eq. Qed.

Lemma classify_idempotent name parameter definition c :
  classify name parameter definition (classify name parameter definition c)
  = classify name parameter definition c.
Proof.
  unfold classify.
  repeat match goal with
         | |- context [if ?b then _ else _] => destruct b
         end;
    try reflexivity;
    unfold add_status, add_key_type, set_key_type_from_curve, add_ecc_curve,
      add_algorithm, add_hash_algorithm, add_block_cipher_padding_mode,
      set_algorithm_from_hash, add_key_usage; simpl;
    rewrite ?add_twice, ?set_twice; reflexivity.
Qed.

(** C10. [read_line] is idempotent: reading the same line twice in a row
    leaves the collector (all nine sets and dicts) as reading it once. *)
Theorem read_line_idempotent (c : MacroCollector) (line : string) :
  read_line (read_line c line) line = read_line c line.
Proof.
  unfold read_line.
  destruct (match_definition line) as [[[name parameter] definition]|];
    [apply classify_idempotent | reflexivity].
Qed.

Lemma read_file_snoc c header_file line :
  read_file c (header_file ++ [line]) = read_line (read_file c header_file) line.
Proof. unfold read_file. apply foldl_snoc. Qed.

(** What a name under [PSA_ALG_] is not. *)
Lemma alg_name_rules (name : string) :
  startswith name "PSA_ALG_" = true →
  startswith name "PSA_ERROR_" = false
  ∧ Str.eqb name "PSA_SUCCESS" = false
  ∧ startswith name "PSA_KEY_TYPE_" = false
  ∧ startswith name "PSA_ECC_CURVE_" = false.
Proof.
  intros H. repeat split; try other_prefix H.
  destruct (Str.eqb_spec name "PSA_SUCCESS") as [->|]; [discriminate | reflexivity].
Qed.

(** A text that contains a hash algorithm value is found by [hash_re]. *)
Lemma search_finds_hash_value (definition : string) :
  contains definition "0x01000055" = true →
  re_search hash_re definition = true.
Proof.
  induction definition as [|a s IH]; [discriminate|].
  intros H. cbn [contains] in H. apply orb_true_iff in H as [H|H].
  - apply startswith_app in H as [r ->].
    rewrite !app_cons, app_empty. reflexivity.
  - cbn [re_search]. rewrite (IH H).
    destruct (re_match hash_re (String a s)); reflexivity.
Qed.

(** C6. A parameterless macro named as one of the three base values
    leaves the collector as it was: the name goes neither to [algorithms]
    nor to any other category. *)
Theorem base_names_skipped (c : MacroCollector) (line name definition : string) :
  match_definition line = Some (name, None, definition) →
  In name base_names →
  read_line c line = c.
Proof.
  intros Hm Hin. unfold read_line. rewrite Hm.
  cbn in Hin. destruct Hin as [<-|[<-|[<-|[]]]]; reflexivity.
Qed.

Lemma base_names_skipped_witness :
  read_line init
    ("#define PSA_ALG_ECDSA_BASE ((psa_algorithm_t)0x10030000)" +:+ nl)
  = init.
Proof.
  apply (base_names_skipped init _ "PSA_ALG_ECDSA_BASE"
           "((psa_algorithm_t)0x10030000)").
  - vm_compute. reflexivity.
  - cbn. auto.
Defined.

(** C4. For a parameterless macro under [PSA_ALG_] that no earlier test
    of the chain turns away (it does not end in [_FLAG] or [MASK], is not
    a padding mode, is not one of the three base values): when its
    definition contains [0x01000055] the name is in [hash_algorithms]
    afterwards; when it contains [0x02000055] and nothing that
    [hash_re] finds, [hash_algorithms] is left as it was. *)
Theorem hash_algorithm_detection (c : MacroCollector)
    (line name definition : string) :
  match_definition line = Some (name, None, definition) →
  startswith name "PSA_ALG_" = true →
  endswith name "_FLAG" = false →
  endswith name "MASK" = false →
  startswith name "PSA_ALG_BLOCK_CIPHER_PAD_" = false →
  in_list name base_names = false →
  (contains definition "0x01000055" = true →
     name ∈ hash_algorithms (read_line c line))
  ∧ (contains definition "0x02000055" = true →
     re_search hash_re definition = false →
     hash_algorithms (read_line c line) = hash_algorithms c).
Proof.
  intros Hm Halg Hflag Hmask Hpad Hbase.
  destruct (alg_name_rules name Halg) as (He & Hs & Hk & Hc).
  unfold read_line, classify. rewrite Hm, Hflag, Hmask, He, Hs, Hk, Hc, Hpad, Halg, Hbase.
  cbn [orb andb not_]. split.
  - intros H. rewrite (search_finds_hash_value _ H). cbn. set_solver.
  - intros _ ->. reflexivity.
Qed.

Lemma hash_algorithm_detection_witness :
  "PSA_ALG_SHA_256"
    ∈ hash_algorithms
        (read_line init
           ("#define PSA_ALG_SHA_256 ((psa_algorithm_t)0x01000055)" +:+ nl))
  ∧ hash_algorithms
      (read_line init
         ("#define PSA_ALG_CBC_MAC ((psa_algorithm_t)0x02000055)" +:+ nl))
    = hash_algorithms init.
Proof.
  split.
  - apply (hash_algorithm_detection init _ "PSA_ALG_SHA_256"
             "((psa_algorithm_t)0x01000055)");
      vm_compute; reflexivity.
  - apply (hash_algorithm_detection init _ "PSA_ALG_CBC_MAC"
             "((psa_algorithm_t)0x02000055)");
      vm_compute; reflexivity.
Defined.

(** C7, as the code has it.  For a macro under [PSA_ALG_] with the single
    parameter [hash_alg] whose name ends neither in [_FLAG] nor in [MASK],
    [read_line] stores under the name, in [algorithms_from_hash], the name
    with [IS_RANDOMIZED_] put after the prefix for [PSA_ALG_DSA] and
    [PSA_ALG_ECDSA], and with [IS_] put after the prefix for every other
    name; nothing else changes. *)
Theorem tester_of_hash_algorithm (c : MacroCollector)
    (line rest definition : string) :
  let name := "PSA_ALG_" +:+ rest in
  match_definition line = Some (name, Some "hash_alg", definition) →
  endswith name "_FLAG" = false →
  endswith name "MASK" = false →
  (name = "PSA_ALG_DSA" ∨ name = "PSA_ALG_ECDSA" →
     read_line c line
     = set_algorithm_from_hash name ("PSA_ALG_" +:+ "IS_RANDOMIZED_" +:+ rest) c)
  ∧ (name ≠ "PSA_ALG_DSA" → name ≠ "PSA_ALG_ECDSA" →
     read_line c line
     = set_algorithm_from_hash name ("PSA_ALG_" +:+ "IS_" +:+ rest) c).
Proof.
  intros name Hm Hflag Hmask.
  assert (startswith name "PSA_ALG_" = true) as Halg
    by (apply startswith_app; exists rest; reflexivity).
  destruct (alg_name_rules name Halg) as (He & Hs & Hk & Hc).
  assert (take_str 8 name = "PSA_ALG_") as Htake by apply (take_str_app "PSA_ALG_").
  assert (drop_str 8 name = rest) as Hdrop by apply (drop_str_app "PSA_ALG_").
  unfold read_line, classify.
  rewrite Hm, Hflag, Hmask, He, Hs, Hk, Hc, Halg, Htake, Hdrop.
  change (not_ (Some "hash_alg")) with false.
  change (param_is (Some "hash_alg") "hash_alg") with true.
  rewrite !andb_false_r. cbn [orb andb]. split.
  - intros Hn. replace (in_list name randomized_names) with true; [reflexivity|].
    symmetry. apply in_list_In. cbn. destruct Hn as [Hn|Hn]; rewrite Hn; auto.
  - intros H1 H2. replace (in_list name randomized_names) with false; [reflexivity|].
    symmetry. apply not_true_is_false. rewrite in_list_In. cbn. intuition congruence.
Qed.

Lemma tester_of_hash_algorithm_witness :
  read_line init
    ("#define PSA_ALG_HMAC(hash_alg) (PSA_ALG_HMAC_BASE | (hash_alg))" +:+ nl)
  = set_algorithm_from_hash "PSA_ALG_HMAC" "PSA_ALG_IS_HMAC" init
  ∧ read_line init
      ("#define PSA_ALG_ECDSA(hash_alg) (PSA_ALG_ECDSA_BASE | (hash_alg))" +:+ nl)
    = set_algorithm_from_hash "PSA_ALG_ECDSA" "PSA_ALG_IS_RANDOMIZED_ECDSA" init.
Proof.
  split.
  - apply (tester_of_hash_algorithm init _ "HMAC"
             "(PSA_ALG_HMAC_BASE | (hash_alg))");
      try (vm_compute; reflexivity); discriminate.
  - apply (tester_of_hash_algorithm init _ "ECDSA"
             "(PSA_ALG_ECDSA_BASE | (hash_alg))");
      try (vm_compute; reflexivity). right. reflexivity.
Defined.

(** C7 fails as stated: a macro under [PSA_ALG_] with the parameter
    [hash_alg] whose name ends in [MASK] stores nothing. *)
Lemma masked_hash_algorithm_not_stored :
  let line := "#define PSA_ALG_SIGN_HASH_MASK(hash_alg) ((hash_alg) & 0x000000ff)" +:+ nl in
  match_definition line
  = Some ("PSA_ALG_SIGN_HASH_MASK", Some "hash_alg", "((hash_alg) & 0x000000ff)")
  ∧ startswith "PSA_ALG_SIGN_HASH_MASK" "PSA_ALG_" = true
  ∧ algorithms_from_hash (read_line init line) = ∅.
Proof.
  intros line.
  split; [vm_compute; reflexivity|].
  split; [vm_compute; reflexivity|].
  unfold read_line.
  replace (match_definition line)
    with (Some ("PSA_ALG_SIGN_HASH_MASK", Some "hash_alg", "((hash_alg) & 0x000000ff)"))
    by (vm_compute; reflexivity).
  reflexivity.
Qed.

(** ** Helper-only names *)

#[local] Arguments startswith : simpl never.
#[local] Arguments endswith : simpl never.
#[local] Arguments Str.eqb : simpl never.
#[local] Arguments in_list : simpl never.
#[local] Arguments re_search : simpl never.

Lemma classify_helper_only name parameter definition c :
  helper_only name = true → classify name parameter definition c = c.
Proof. unfold helper_only, classify. intros ->. reflexivity. Qed.

(** Only the name at hand is ever added. *)
Lemma classify_collected name parameter definition c :
  collected (classify name parameter definition c) ⊆ {[name]} ∪ collected c.
Proof.
  unfold classify.
  repeat match goal with
         | |- context [if ?b then _ else _] => destruct b
         end;
    unfold collected; cbn; rewrite ?dom_insert_L; set_solver.
Qed.

Lemma helper_only_never_collected (header_file : list string) (name : string) :
  helper_only name = true → name ∉ collected (read_file init header_file).
Proof.
  intros Hh. induction header_file as [|line header_file IH] using rev_ind.
  - cbn. set_solver.
  - rewrite read_file_snoc. unfold read_line.
    destruct (match_definition line) as [[[n p] d]|]; [|exact IH].
    destruct (helper_only n) eqn:Hn.
    + rewrite classify_helper_only by exact Hn. exact IH.
    + intros Hin. apply classify_collected in Hin.
      apply elem_of_union in Hin as [Hin|Hin]; [|exact (IH Hin)].
      apply elem_of_singleton in Hin. subst. congruence.
Qed.

Ltac keeps_helper_test :=
  intros rest H; unfold helper_only in *;
  destruct rest as [|c1 [|c2 [|c3 [|c4 [|c5 rest]]]]];
  [ exact H || reflexivity ..
  | rewrite <- app_assoc_str;
    rewrite !endswith_app in * by (rewrite !len_cons; cbn; lia);
    exact H ].

Lemma key_type_tester_keeps : keeps_helper_test "PSA_KEY_TYPE_" "IS_".
Proof. keeps_helper_test. Qed.

Lemma alg_tester_keeps : keeps_helper_test "PSA_ALG_" "IS_".
Proof. keeps_helper_test. Qed.

Lemma alg_randomized_tester_keeps :
  keeps_helper_test "PSA_ALG_" "IS_RANDOMIZED_".
Proof. keeps_helper_test. Qed.

Lemma tester_by_slices (prefix infix name : string) :
  startswith name prefix = true →
  helper_only name = false →
  keeps_helper_test prefix infix →
  helper_only (take_str (len prefix) name +:+ infix +:+ drop_str (len prefix) name)
  = false.
Proof.
  intros Hp Hh Hk. apply startswith_app in Hp as [rest ->].
  rewrite take_str_app, drop_str_app. apply Hk. exact Hh.
Qed.

Lemma classify_testers_kept name parameter definition c :
  testers_kept c → testers_kept (classify name parameter definition c).
Proof.
  intros Hc. unfold classify.
  destruct (helper_only name) eqn:Hh; unfold helper_only in Hh; rewrite Hh;
    [exact Hc|].
  fold (helper_only name) in Hh.
  repeat match goal with
         | |- context [if ?b then _ else _] => destruct b eqn:?
         end;
    try exact Hc;
    intros k v; unfold_updates; intros [Hv|Hv];
    try (apply (Hc k v); auto; fail);
    rewrite lookup_insert in Hv; case_decide;
    try (apply (Hc k v); auto; fail);
    injection Hv as <-; split_bools.
  - apply (tester_by_slices "PSA_KEY_TYPE_" "IS_");
      auto using key_type_tester_keeps.
  - apply (tester_by_slices "PSA_ALG_" "IS_RANDOMIZED_");
      auto using alg_randomized_tester_keeps.
  - apply (tester_by_slices "PSA_ALG_" "IS_");
      auto using alg_tester_keeps.
Qed.

Lemma read_file_testers_kept (header_file : list string) :
  testers_kept (read_file init header_file).
Proof.
  induction header_file as [|line header_file IH] using rev_ind.
  - intros k v [H|H]; cbn in H; rewrite lookup_empty in H; discriminate.
  - rewrite read_file_snoc. unfold read_line.
    destruct (match_definition line) as [[[n p] d]|]; [|exact IH].
    apply classify_testers_kept. exact IH.
Qed.

(** C1, as the code has it.  A macro whose name ends in [_FLAG] or ends in
    [MASK] changes nothing in the collector, whatever prefix rule the name
    would otherwise meet; and no header makes such a name a member of a
    set, a key of a dict or a tester stored in a dict, which is all that
    the fragments are rendered from. *)
Theorem helper_macros_excluded (name : string) :
  endswith name "_FLAG" || endswith name "MASK" = true →
  (∀ c line parameter definition,
      match_definition line = Some (name, parameter, definition) →
      read_line c line = c)
  ∧ (∀ header_file,
       let c := read_file init header_file in
       (name ∉ collected c)
       ∧ (∀ k, key_types_from_curve c !! k ≠ Some name)
       ∧ (∀ k, algorithms_from_hash c !! k ≠ Some name)).
Proof.
  intros Hh. split.
  - intros c line parameter definition Hm. unfold read_line. rewrite Hm.
    apply classify_helper_only. exact Hh.
  - intros header_file c.
    split; [apply helper_only_never_collected; exact Hh|].
    pose proof (read_file_testers_kept header_file) as Hk. fold c in Hk.
    change (helper_only name = true) in Hh.
    split; intros k Hv.
    + rewrite (Hk k name) in Hh by (left; exact Hv). discriminate.
    + rewrite (Hk k name) in Hh by (right; exact Hv). discriminate.
Qed.

Lemma helper_macros_excluded_witness :
  read_line init ("#define PSA_ALG_HASH_MASK ((psa_algorithm_t)0x000000ff)" +:+ nl)
  = init
  ∧ "PSA_ALG_HASH_MASK"
      ∉ collected
          (read_file init
             [ "#define PSA_ALG_HASH_MASK ((psa_algorithm_t)0x000000ff)" +:+ nl ]).
Proof.
  assert (endswith "PSA_ALG_HASH_MASK" "_FLAG"
          || endswith "PSA_ALG_HASH_MASK" "MASK" = true) as H
    by (vm_compute; reflexivity).
  destruct (helper_macros_excluded "PSA_ALG_HASH_MASK" H) as [H1 H2].
  split.
  - apply (H1 init _ None "((psa_algorithm_t)0x000000ff)").
    vm_compute. reflexivity.
  - apply H2.
Defined.

(** C1 fails as stated: a name with [MASK] in the middle is collected and
    rendered. *)
Lemma mask_inside_name_is_collected :
  let line := "#define PSA_KEY_TYPE_MASKED_KEY ((psa_key_type_t)0x04000001)" +:+ nl in
  let name := "PSA_KEY_TYPE_MASKED_KEY" in
  let c := read_line init line in
  match_definition line = Some (name, None, "((psa_key_type_t)0x04000001)")
  ∧ contains name "MASK" = true
  ∧ name ∈ key_types c
  ∧ contains (make_key_type_cases elements c) name = true.
Proof.
  intros line name c.
  split; [vm_compute; reflexivity|].
  split; [vm_compute; reflexivity|].
  split; [|vm_compute; reflexivity].
  apply (bool_decide_unpack _). vm_compute. exact I.
Qed.

(** ** Disjoint categories *)

Lemma classify_well_shaped name parameter definition c :
  well_shaped c → well_shaped (classify name parameter definition c).
Proof.
  intros Hc. unfold classify.
  repeat match goal with
         | |- context [if ?b then _ else _] => destruct b eqn:?
         end;
    try exact Hc;
    intros k x Hx; specialize (Hc k x);
    destruct k; cbn in Hx |- *; rewrite ?dom_insert_L in Hx;
    try (apply Hc; exact Hx);
    repeat (apply elem_of_union in Hx as [Hx|Hx]);
    try (apply Hc; exact Hx);
    apply elem_of_singleton in Hx; subst x; split_bools;
    repeat match goal with
           | H : ?a = true |- context [?a] => rewrite H
           end;
    try reflexivity;
    repeat match goal with
           | H : context [startswith ?a ?b] |- _ =>
               destruct (startswith a b); cbn in *
           end; congruence.
Qed.

Lemma read_file_well_shaped (header_file : list string) :
  well_shaped (read_file init header_file).
Proof.
  induction header_file as [|line header_file IH] using rev_ind.
  - intros k x Hx. destruct k; cbn in Hx; set_solver.
  - rewrite read_file_snoc. unfold read_line.
    destruct (match_definition line) as [[[n p] d]|]; [|exact IH].
    apply classify_well_shaped. exact IH.
Qed.

Lemma shapes_clash (k1 k2 : category) (x : string) :
  shape k1 x = true → shape k2 x = true → may_share k1 k2 = true.
Proof.
  destruct k1, k2; cbn; try reflexivity; intros H1 H2; exfalso;
    split_bools;
    repeat match goal with
           | H : _ || _ = true |- _ => apply orb_true_iff in H as [H|H]
           | H : Str.eqb _ _ = true |- _ => apply Str.eqb_eq in H; subst; discriminate
           end;
    try congruence;
    match goal with
    | Ha : startswith x ?p = true, Hb : startswith x ?q = true |- _ =>
        pose proof (prefix_clash x p q Ha eq_refl eq_refl); congruence
    end.
Qed.

Lemma classify_hash_subset name parameter definition c :
  hash_algorithms c ⊆ algorithms c →
  hash_algorithms (classify name parameter definition c)
  ⊆ algorithms (classify name parameter definition c).
Proof.
  intros Hc. unfold classify.
  repeat match goal with
         | |- context [if ?b then _ else _] => destruct b
         end; cbn; set_solver.
Qed.

Lemma read_file_hash_subset (header_file : list string) :
  hash_algorithms (read_file init header_file)
  ⊆ algorithms (read_file init header_file).
Proof.
  induction header_file as [|line header_file IH] using rev_ind.
  - cbn. set_solver.
  - rewrite read_file_snoc. unfold read_line.
    destruct (match_definition line) as [[[n p] d]|]; [|exact IH].
    apply classify_hash_subset. exact IH.
Qed.

Ltac only_category k :=
  exists k; split; [discriminate|];
  let k' := fresh "k" in
  intros k' ? ?; destruct k'; try congruence; reflexivity.

(** One call of the chain touches one category, and with [algorithms]
    possibly [hash_algorithms]. *)
Lemma classify_one_category name parameter definition c :
  ∃ k, k ≠ HashAlgorithms
       ∧ ∀ k', k' ≠ k → k' ≠ HashAlgorithms →
               members k' (classify name parameter definition c) = members k' c.
Proof.
  unfold classify.
  repeat match goal with
         | |- context [if ?b then _ else _] => destruct b
         end;
    first
      [ only_category Statuses | only_category KeyTypes
      | only_category KeyTypesFromCurve | only_category EccCurves
      | only_category Algorithms | only_category BlockCipherPaddingModes
      | only_category AlgorithmsFromHash | only_category KeyUsages ].
Qed.

(** C2, as the code has it.  After any sequence of lines every hash
    algorithm is also in [algorithms], and two categories hold a common
    name only where the design lets them: [hash_algorithms] with
    [algorithms], and a dict with the set (or sets) of the same prefix,
    for a name defined both with and without a parameter.  Every other
    pair of the nine categories is disjoint.  One more line changes one
    category at most, [hash_algorithms] apart. *)
Theorem categories_disjoint (header_file : list string) :
  let c := read_file init header_file in
  hash_algorithms c ⊆ algorithms c
  ∧ (∀ k1 k2, may_share k1 k2 = false → members k1 c ## members k2 c)
  ∧ (∀ line,
       ∃ k, k ≠ HashAlgorithms
            ∧ ∀ k', k' ≠ k → k' ≠ HashAlgorithms →
                    members k' (read_line c line) = members k' c).
Proof.
  intros c. split; [apply read_file_hash_subset|]. split.
  - intros k1 k2 Hs. apply elem_of_disjoint. intros x H1 H2.
    apply read_file_well_shaped in H1, H2.
    rewrite (shapes_clash k1 k2 x H1 H2) in Hs. discriminate.
  - intros line. unfold read_line.
    destruct (match_definition line) as [[[n p] d]|].
    + apply classify_one_category.
    + exists Statuses. split; [discriminate | reflexivity].
Qed.

Lemma categories_disjoint_witness :
  members Statuses
    (read_file init
       [ "#define PSA_SUCCESS ((psa_status_t)0)" +:+ nl;
         "#define PSA_KEY_TYPE_RAW_DATA ((psa_key_type_t)0x02000000)" +:+ nl ])
  ## members KeyTypes
       (read_file init
          [ "#define PSA_SUCCESS ((psa_status_t)0)" +:+ nl;
            "#define PSA_KEY_TYPE_RAW_DATA ((psa_key_type_t)0x02000000)" +:+ nl ]).
Proof.
  apply (proj1 (proj2 (categories_disjoint
           [ "#define PSA_SUCCESS ((psa_status_t)0)" +:+ nl;
             "#define PSA_KEY_TYPE_RAW_DATA ((psa_key_type_t)0x02000000)" +:+ nl ]))).
  reflexivity.
Defined.

(** C2 fails as stated: a hash algorithm is in two categories, and in two
    rendered switches. *)
Lemma hash_algorithm_in_two_categories :
  let header_file :=
    [ "#define PSA_ALG_SHA_256 ((psa_algorithm_t)0x01000009)" +:+ nl ] in
  let name := "PSA_ALG_SHA_256" in
  let c := read_file init header_file in
  name ∈ algorithms c
  ∧ name ∈ hash_algorithms c
  ∧ contains (make_algorithm_cases elements c) name = true
  ∧ contains (make_hash_algorithm_cases elements c) name = true.
Proof.
  intros header_file name c.
  split; [apply (bool_decide_unpack _); vm_compute; exact I|].
  split; [apply (bool_decide_unpack _); vm_compute; exact I|].
  split; vm_compute; reflexivity.
Qed.

(** The other shared pairs are met as well, when a header defines a name
    both with and without a parameter. *)
Lemma set_and_dict_share_a_name :
  let header_file :=
    [ "#define PSA_KEY_TYPE_ECC ((psa_key_type_t)0x06000000)" +:+ nl;
      "#define PSA_KEY_TYPE_ECC(curve) (PSA_KEY_TYPE_ECC_BASE | (curve))" +:+ nl;
      "#define PSA_ALG_HMAC ((psa_algorithm_t)0x01000055)" +:+ nl;
      "#define PSA_ALG_HMAC(hash_alg) (PSA_ALG_HMAC_BASE | (hash_alg))" +:+ nl;
      "#define PSA_ALG_BLOCK_CIPHER_PAD_X ((psa_algorithm_t)0x00000001)" +:+ nl;
      "#define PSA_ALG_BLOCK_CIPHER_PAD_X(hash_alg) (hash_alg)" +:+ nl ] in
  let c := read_file init header_file in
  "PSA_KEY_TYPE_ECC" ∈ members KeyTypes c ∩ members KeyTypesFromCurve c
  ∧ "PSA_ALG_HMAC" ∈ members Algorithms c ∩ members AlgorithmsFromHash c
  ∧ "PSA_ALG_HMAC" ∈ members HashAlgorithms c ∩ members AlgorithmsFromHash c
  ∧ "PSA_ALG_BLOCK_CIPHER_PAD_X"
      ∈ members BlockCipherPaddingModes c ∩ members AlgorithmsFromHash c.
Proof.
  intros header_file c.
  repeat split; apply (bool_decide_unpack _); vm_compute; exact I.
Qed.

(** ** Sorting and the order of iteration *)

Lemma sorted_Sorted (l : list string) : Sorted String.le (sorted l).
Proof. apply Sorted_merge_sort. apply _. Qed.

Lemma sorted_Permutation (l : list string) : sorted l ≡ₚ l.
Proof. apply merge_sort_Permutation. Qed.

(** The sorted list does not depend on the order of the list sorted. *)
Lemma sorted_order_independent (l1 l2 : list string) :
  l1 ≡ₚ l2 → sorted l1 = sorted l2.
Proof.
  intros H. apply (Sorted_unique String.le); try apply sorted_Sorted.
  rewrite !sorted_Permutation. exact H.
Qed.

Section OrderOfIteration.

Variables iter1 iter2 : gset string → list string.
Hypothesis iter1_enumerates : ∀ s, iter1 s ≡ₚ elements s.
Hypothesis iter2_enumerates : ∀ s, iter2 s ≡ₚ elements s.

Lemma sorted_iter (s : gset string) : sorted (iter1 s) = sorted (iter2 s).
Proof.
  apply sorted_order_independent.
  rewrite iter1_enumerates, iter2_enumerates. reflexivity.
Qed.

Lemma write_file_order_independent (c : MacroCollector) :
  write_file iter1 c = write_file iter2 c.
Proof.
  unfold write_file, make_status_cases, make_ecc_curve_cases,
    make_hash_algorithm_cases, make_key_type_cases, make_key_type_code,
    make_padding_mode_cases, make_algorithm_cases, make_algorithm_code,
    make_key_usage_code.
  cbv zeta. rewrite !sorted_iter. reflexivity.
Qed.

Lemma sorted_lists_in_order (sep : string) (make : string → string)
    (s : gset string) :
  lists_in_order (join sep (map make (sorted (iter1 s)))) sep make s.
Proof.
  exists (sorted (iter1 s)).
  assert (sorted (iter1 s) ≡ₚ elements s) as Hp
    by (rewrite sorted_Permutation; apply iter1_enumerates).
  split; [exact Hp|]. split; [|split; [apply sorted_Sorted | reflexivity]].
  rewrite Hp. apply NoDup_elements.
Qed.

End OrderOfIteration.

(** C5. Two runs over the same lines write the same text, whatever order
    each run iterates over its sets and dict keys in.  The text written is
    the template with the nine fragments in its nine places, and every one
    of these fragments lists the names of its category in ascending order,
    each name once. *)
Theorem output_deterministic (iter1 iter2 : gset string → list string) :
  (∀ s, iter1 s ≡ₚ elements s) →
  (∀ s, iter2 s ≡ₚ elements s) →
  ∀ header_file : list string,
    let c := read_file init header_file in
    let sep := nl +:+ "    " in
    let sep2 := nl +:+ "        " in
    write_file iter1 c = write_file iter2 c
    ∧ write_file iter1 c
      = output_template_0 +:+ make_status_cases iter1 c
        +:+ output_template_1 +:+ make_ecc_curve_cases iter1 c
        +:+ output_template_2 +:+ make_hash_algorithm_cases iter1 c
        +:+ output_template_3 +:+ make_key_type_cases iter1 c
        +:+ output_template_4 +:+ make_key_type_code iter1 c
        +:+ output_template_5 +:+ make_padding_mode_cases iter1 c
        +:+ output_template_6 +:+ make_algorithm_cases iter1 c
        +:+ output_template_7 +:+ make_algorithm_code iter1 c
        +:+ output_template_8 +:+ make_key_usage_code iter1 c
        +:+ output_template_9
    ∧ lists_in_order (make_status_cases iter1 c) sep make_return_case
        (statuses c)
    ∧ lists_in_order (make_ecc_curve_cases iter1 c) sep make_return_case
        (ecc_curves c)
    ∧ lists_in_order (make_hash_algorithm_cases iter1 c) sep make_return_case
        (hash_algorithms c)
    ∧ lists_in_order (make_key_type_cases iter1 c) sep make_append_case
        (key_types c)
    ∧ lists_in_order (make_key_type_code iter1 c) sep2
        (λ k, make_key_type_from_curve_code k (key_types_from_curve c !!! k))
        (dom (key_types_from_curve c))
    ∧ lists_in_order (make_padding_mode_cases iter1 c) sep
        make_inner_append_case (block_cipher_padding_modes c)
    ∧ lists_in_order (make_algorithm_cases iter1 c) sep make_append_case
        (algorithms c)
    ∧ lists_in_order (make_algorithm_code iter1 c) sep2
        (λ k, make_algorithm_from_hash_code k (algorithms_from_hash c !!! k))
        (dom (algorithms_from_hash c))
    ∧ lists_in_order (make_key_usage_code iter1 c) nl (make_bit_test "usage")
        (key_usages c).
Proof.
  intros H1 H2 header_file c sep sep2.
  split; [apply write_file_order_independent; assumption|].
  split; [reflexivity|].
  repeat split; apply sorted_lists_in_order; assumption.
Qed.

Lemma output_deterministic_witness :
  let header_file :=
    [ "#define PSA_SUCCESS ((psa_status_t)0)" +:+ nl;
      "#define PSA_ERROR_BAD_STATE ((psa_status_t)-137)" +:+ nl ] in
  write_file elements (read_file init header_file)
  = write_file (λ s, reverse (elements s)) (read_file init header_file).
Proof.
  intros header_file.
  apply (output_deterministic elements (λ s, reverse (elements s))).
  - intros s. reflexivity.
  - intros s. apply reverse_Permutation.
Defined.

(** The same for a whole run: the files it leaves do not depend on the
    order of iteration. *)
Lemma run_order_independent (iter1 iter2 : gset string → list string)
    (header_file_name output_file_name : string) (e : env) (fs : files) :
  (∀ s, iter1 s ≡ₚ elements s) →
  (∀ s, iter2 s ≡ₚ elements s) →
  generate_psa_constants iter1 header_file_name output_file_name e fs
  = generate_psa_constants iter2 header_file_name output_file_name e fs.
Proof.
  intros H1 H2. unfold generate_psa_constants, mbind, io_mbind, io_bind.
  destruct (open_read header_file_name e fs) as [[header_file|] fs1];
    [|reflexivity].
  rewrite (write_file_order_independent iter1 iter2 H1 H2). reflexivity.
Qed.

(** ** The temporary file *)

Lemma temp_name_differs (output_file_name : string) :
  output_file_name +:+ ".tmp" ≠ output_file_name.
Proof.
  intros H. apply (f_equal len) in H. rewrite len_app in H. cbn in H. lia.
Qed.

(** A run that raises leaves the output path as it was, and a run that
    returns leaves the whole text there and no temporary file. *)
Lemma run_keeps_output (iter : gset string → list string)
    (header_file_name output_file_name : string) (e : env) (fs : files) :
  let temp_file_name := output_file_name +:+ ".tmp" in
  match generate_psa_constants iter header_file_name output_file_name e fs with
  | (Returned _, fs') =>
      ∃ content,
        fs !! header_file_name = Some content
        ∧ fs' !! output_file_name
          = Some (write_file iter (read_file init (readlines content)))
        ∧ fs' !! temp_file_name = None
        ∧ ∀ p, p ≠ output_file_name → p ≠ temp_file_name → fs' !! p = fs !! p
  | (Raised, fs') =>
      fs' !! output_file_name = fs !! output_file_name
      ∧ ∀ p, p ≠ temp_file_name → fs' !! p = fs !! p
  end.
Proof.
  intros temp_file_name.
  pose proof (temp_name_differs output_file_name) as Hne.
  fold temp_file_name in Hne.
  unfold generate_psa_constants, mbind, io_mbind, io_bind,
    open_read, open_write, write, os_rename.
  fold temp_file_name.
  destruct (fs !! header_file_name) as [content|] eqn:Hh; [|auto].
  destruct (unreadable e header_file_name); [auto|].
  destruct (unwritable e temp_file_name); [auto|].
  cbv zeta. rewrite lookup_insert_eq. cbn [default id].
  set (text := write_file iter (read_file init (readlines content))).
  change ("" +:+ text) with text.
  change ("" +:+ take_str ?n text) with (take_str n text).
  assert (∀ (v : string) p, p ≠ temp_file_name →
            <[temp_file_name:=v]> (<[temp_file_name:=""]> fs) !! p = fs !! p)
    as Hother
    by (intros v p Hp; rewrite !lookup_insert_ne by congruence; reflexivity).
  assert (∀ fs1 : files,
            (∀ p, p ≠ temp_file_name → fs1 !! p = fs !! p) →
            fs1 !! temp_file_name = Some text →
            match
              (if rename_fails e then (Raised, fs1)
               else (Returned (),
                     <[output_file_name:=text]> (delete temp_file_name fs1)))
            with
            | (Returned _, fs') =>
                ∃ content0,
                  Some content = Some content0
                  ∧ fs' !! output_file_name
                    = Some (write_file iter
                              (read_file init (readlines content0)))
                  ∧ fs' !! temp_file_name = None
                  ∧ ∀ p, p ≠ output_file_name → p ≠ temp_file_name →
                         fs' !! p = fs !! p
            | (Raised, fs') =>
                fs' !! output_file_name = fs !! output_file_name
                ∧ ∀ p, p ≠ temp_file_name → fs' !! p = fs !! p
            end) as Hrename.
  { intros fs1 Hfs1 Htemp. destruct (rename_fails e).
    - split; [apply Hfs1; congruence | exact Hfs1].
    - exists content. split; [reflexivity|].
      split; [apply lookup_insert_eq|].
      split.
      + rewrite lookup_insert_ne by congruence. apply lookup_delete_eq.
      + intros p Hp1 Hp2. rewrite lookup_insert_ne by congruence.
        rewrite lookup_delete_ne by congruence. apply Hfs1. exact Hp2. }
  destruct (write_limit e) as [n|].
  - destruct (n <? len text).
    + split; [apply Hother; congruence | intros p Hp; apply Hother; exact Hp].
    + rewrite lookup_insert_eq. apply Hrename; [apply Hother|].
      apply lookup_insert_eq.
  - rewrite lookup_insert_eq. apply Hrename; [apply Hother|].
    apply lookup_insert_eq.
Qed.

(** What a run does, step by step. *)
Lemma generate_psa_constants_eq (iter : gset string → list string)
    (header_file_name output_file_name : string) (e : env) (fs : files) :
  let temp_file_name := output_file_name +:+ ".tmp" in
  generate_psa_constants iter header_file_name output_file_name e fs
  = match fs !! header_file_name with
    | None => (Raised, fs)
    | Some content =>
        let text := write_file iter (read_file init (readlines content)) in
        if unreadable e header_file_name then (Raised, fs)
        else if unwritable e temp_file_name then (Raised, fs)
        else
          match write_limit e with
          | Some n =>
              if n <? len text
              then (Raised, <[temp_file_name := take_str n text]> fs)
              else if rename_fails e
                   then (Raised, <[temp_file_name := text]> fs)
                   else (Returned tt,
                         <[output_file_name := text]>
                           (delete temp_file_name fs))
          | None =>
              if rename_fails e
              then (Raised, <[temp_file_name := text]> fs)
              else (Returned tt,
                    <[output_file_name := text]> (delete temp_file_name fs))
          end
    end.
Proof.
  intros temp_file_name.
  unfold generate_psa_constants, mbind, io_mbind, io_bind,
    open_read, open_write, write, os_rename.
  fold temp_file_name.
  destruct (fs !! header_file_name) as [content|]; [|reflexivity].
  destruct (unreadable e header_file_name); [reflexivity|].
  destruct (unwritable e temp_file_name); [reflexivity|].
  cbv zeta. rewrite lookup_insert_eq. cbn [default id].
  set (text := write_file iter (read_file init (readlines content))).
  change ("" +:+ text) with text.
  change ("" +:+ take_str ?n text) with (take_str n text).
  destruct (write_limit e) as [n|]; [destruct (n <? len text)|];
    rewrite ?lookup_insert_eq; try destruct (rename_fails e);
    rewrite ?insert_insert_eq, ?delete_insert_eq; reflexivity.
Qed.

(** C8. The text is written to the temporary path, the output name with
    [.tmp] appended, and the rename comes last.  When the run returns, the
    output path holds the whole text made from the header and the
    temporary path is gone; when it raises (missing or unreadable header,
    temporary file that cannot be opened, write that stops short, rename
    that fails), the output path holds what it held before the run, and
    only the temporary path may have changed.  With a header that can be
    read and a temporary file that can be opened: a write that stops short
    leaves what got through at the temporary path; a write that completes
    leaves the whole text there, and the run ends as the rename does from
    that state, so that it raises with the whole text still at the
    temporary path when the rename fails, and returns when it does not. *)
Theorem no_partial_output (iter : gset string → list string)
    (header_file_name output_file_name : string) (e : env) (fs : files) :
  let temp_file_name := output_file_name +:+ ".tmp" in
  let run :=
    generate_psa_constants iter header_file_name output_file_name e fs in
  match run with
  | (Returned _, fs') =>
      ∃ content,
        fs !! header_file_name = Some content
        ∧ fs' !! output_file_name
          = Some (write_file iter (read_file init (readlines content)))
        ∧ fs' !! temp_file_name = None
        ∧ ∀ p, p ≠ output_file_name → p ≠ temp_file_name → fs' !! p = fs !! p
  | (Raised, fs') =>
      fs' !! output_file_name = fs !! output_file_name
      ∧ ∀ p, p ≠ temp_file_name → fs' !! p = fs !! p
  end
  ∧ ∀ content,
      fs !! header_file_name = Some content →
      unreadable e header_file_name = false →
      unwritable e temp_file_name = false →
      let text := write_file iter (read_file init (readlines content)) in
      (∀ n, write_limit e = Some n → n < len text →
         run = (Raised, <[temp_file_name := take_str n text]> fs))
      ∧ (write_completes e text = true →
         run = os_rename temp_file_name output_file_name e
                 (<[temp_file_name := text]> fs)
         ∧ (rename_fails e = true →
            run = (Raised, <[temp_file_name := text]> fs))
         ∧ (rename_fails e = false →
            run = (Returned tt,
                   <[output_file_name := text]> (delete temp_file_name fs)))).
Proof.
  intros temp_file_name run. split; [apply run_keeps_output|].
  intros content Hh Hr Hw text. unfold run.
  rewrite generate_psa_constants_eq. cbv zeta. fold temp_file_name.
  rewrite Hh, Hr, Hw. fold text.
  unfold write_completes, os_rename. rewrite lookup_insert_eq.
  rewrite delete_insert_eq.
  split.
  - intros n -> Hn. apply Nat.ltb_lt in Hn. rewrite Hn. reflexivity.
  - destruct (write_limit e) as [n|].
    + intros Hn. apply negb_true_iff in Hn. rewrite Hn.
      destruct (rename_fails e); repeat split; intros; congruence.
    + intros _. destruct (rename_fails e); repeat split; intros; congruence.
Qed.

Lemma no_partial_output_witness :
  let e := mkEnv (λ _, false) (λ _, false) None false in
  let content := "#define PSA_SUCCESS ((psa_status_t)0)" +:+ nl in
  let fs : files := {[ "crypto.h" := content ]} in
  let text := write_file elements (read_file init (readlines content)) in
  generate_psa_constants elements "crypto.h" "names.c" e fs
  = (Returned tt,
     <[ "names.c" := text ]> (delete ("names.c" +:+ ".tmp") fs)).
Proof.
  intros e content fs text.
  destruct (no_partial_output elements "crypto.h" "names.c" e fs) as [_ H].
  assert (fs !! "crypto.h" = Some content) as Hh by (vm_compute; reflexivity).
  destruct (H content Hh eq_refl eq_refl) as [_ H2].
  destruct (H2 eq_refl) as (_ & _ & H3).
  exact (H3 eq_refl).
Defined.

(** * Further properties *)

(** ** What a matching line looks like *)

Lemma star_cls_some {A : Type} (p : ascii → bool)
    (k : string → groups → option A) (g : groups) (x : A) :
  ∀ s, star_cls p k s g = Some x →
       ∃ w s', s = w +:+ s' ∧ all_chars p w = true ∧ k s' g = Some x.
Proof.
  induction s as [|a s IH]; intros H.
  - exists "", "". auto.
  - cbn [star_cls] in H. destruct (p a) eqn:Hp.
    + destruct (star_cls p k s g) as [y|] eqn:Hs.
      * injection H as ->. destruct (IH eq_refl) as (w & s' & -> & Hw & Hk).
        exists (String a w), s'. split; [reflexivity|].
        cbn [all_chars]. rewrite Hp, Hw. auto.
      * exists "", (String a s). auto.
    + exists "", (String a s). auto.
Qed.

Lemma rmatch_star_some {A : Type} (p : ascii → bool)
    (k : string → groups → option A) (s : string) (g : groups) (x : A) :
  rmatch (Star (Cls p)) s g k = Some x →
  ∃ w s', s = w +:+ s' ∧ all_chars p w = true ∧ k s' g = Some x.
Proof. rewrite rmatch_star_cls. apply star_cls_some. Qed.

Lemma rmatch_plus_some {A : Type} (p : ascii → bool)
    (k : string → groups → option A) (s : string) (g : groups) (x : A) :
  rmatch (Plus (Cls p)) s g k = Some x →
  ∃ w s', s = w +:+ s' ∧ (w ≠ "" ∧ all_chars p w = true) ∧ k s' g = Some x.
Proof.
  unfold Plus. rewrite rmatch_seq. destruct s as [|a s]; [discriminate|].
  rewrite rmatch_cls. destruct (p a) eqn:Hp; [|discriminate].
  intros H. apply rmatch_star_some in H as (w & s' & -> & Hw & Hk).
  exists (String a w), s'. split; [reflexivity|]. split; [|exact Hk].
  split; [discriminate|]. cbn [all_chars]. rewrite Hp, Hw. reflexivity.
Qed.

Lemma rmatch_chr_some {A : Type} (c : ascii)
    (k : string → groups → option A) (s : string) (g : groups) (x : A) :
  rmatch (Chr c) s g k = Some x → ∃ s', s = String c s' ∧ k s' g = Some x.
Proof.
  destruct s as [|a s]; [discriminate|]. rewrite rmatch_chr.
  destruct (Ascii.eqb_spec a c) as [->|]; [|discriminate]. eauto.
Qed.

Lemma rmatch_lit_some {A : Type} (w : string) :
  ∀ (k : string → groups → option A) (s : string) (g : groups) (x : A),
    rmatch (Lit w) s g k = Some x → ∃ s', s = w +:+ s' ∧ k s' g = Some x.
Proof.
  induction w as [|c w IH]; intros k s g x H.
  - exists s. auto.
  - cbn [Lit] in H. rewrite rmatch_seq in H.
    apply rmatch_chr_some in H as (s1 & -> & H).
    apply IH in H as (s2 & -> & H). exists s2. auto.
Qed.

Lemma rmatch_grp_plus_some {A : Type} (i : nat) (p : ascii → bool)
    (k : string → groups → option A) (s : string) (g : groups) (x : A) :
  rmatch (Grp i (Plus (Cls p))) s g k = Some x →
  ∃ w s', s = w +:+ s' ∧ (w ≠ "" ∧ all_chars p w = true)
          ∧ k s' (set_group i w g) = Some x.
Proof.
  rewrite rmatch_grp. intros H.
  apply rmatch_plus_some in H as (w & s' & -> & Hw & Hk).
  rewrite consumed_app in Hk. eauto.
Qed.

Lemma take_while_all (p : ascii → bool) (s : string) :
  all_chars p (take_while p s) = true.
Proof.
  induction s as [|a s IH]; [reflexivity|].
  cbn [take_while]. destruct (p a) eqn:Hp; [|reflexivity].
  cbn [all_chars]. rewrite Hp, IH. reflexivity.
Qed.

(** Names the longest run [t] of characters other than a newline at the
    start of [s], and the remainder [d]. *)
Ltac split_rest s t d :=
  pose proof (take_drop_while is_dot s);
  pose proof (take_while_all is_dot s);
  pose proof (drop_while_head is_dot s);
  generalize dependent (drop_while is_dot s); intros d;
  generalize dependent (take_while is_dot s); intros t; intros; subst s.

(** A line that matches is made as [definition_re] says, and the groups are
    its name, its parameter and its definition. *)
Lemma match_definition_sound (line name definition : string)
    (parameter : option string) :
  match_definition line = Some (name, parameter, definition) →
  definition_line line name parameter definition.
Proof.
  unfold match_definition, re_match. intros H.
  destruct (rmatch definition_re line no_groups (λ _ g, Some g))
    as [gf|] eqn:Hm; [|discriminate H].
  unfold definition_re in Hm. cbn [Seqs] in Hm.
  rewrite rmatch_seq in Hm.
  apply rmatch_star_some in Hm as (b1 & s1 & -> & Hb1 & Hm).
  rewrite rmatch_seq in Hm. apply rmatch_chr_some in Hm as (s2 & -> & Hm).
  rewrite rmatch_seq in Hm.
  apply rmatch_star_some in Hm as (b2 & s3 & -> & Hb2 & Hm).
  rewrite rmatch_seq in Hm. apply rmatch_lit_some in Hm as (s4 & -> & Hm).
  rewrite rmatch_seq in Hm.
  apply rmatch_plus_some in Hm as (b3 & s5 & -> & Hb3 & Hm).
  rewrite rmatch_seq in Hm.
  apply rmatch_grp_plus_some in Hm as (n & s6 & -> & Hn & Hm).
  rewrite rmatch_seq, rmatch_alt in Hm.
  match type of Hm with
  | match ?m with _ => _ end = _ => destruct m as [y|] eqn:Halt
  end.
  - (* blanks after the name: no parameter *)
    injection Hm as ->.
    apply rmatch_plus_some in Halt as (mid & s7 & -> & Hmid & Hm).
    apply definition_tail in Hm as (a & s' & -> & Ha & ->).
    unfold set_group in H. cbn [Nat.eqb] in H. unfold no_groups in H.
    injection H as <- <- <-.
    split_rest s' t d.
    exists b1, b2, b3, mid, d.
    split; [reflexivity|]. repeat split; try tauto; try discriminate.
    cbn [all_chars]. rewrite Ha. assumption.
  - (* a parenthesised parameter *)
    clear Halt. rewrite rmatch_seq in Hm.
    apply rmatch_chr_some in Hm as (s7 & -> & Hm).
    rewrite rmatch_seq in Hm.
    apply rmatch_grp_plus_some in Hm as (p & s8 & -> & Hp & Hm).
    rewrite rmatch_seq in Hm. apply rmatch_chr_some in Hm as (s9 & -> & Hm).
    apply rmatch_star_some in Hm as (b4 & s10 & -> & Hb4 & Hm).
    apply definition_tail in Hm as (a & s' & -> & Ha & ->).
    unfold set_group in H. cbn [Nat.eqb] in H.
    injection H as <- <- <-.
    split_rest s' t d.
    exists b1, b2, b3, ("(" +:+ p +:+ ")" +:+ b4), d.
    split; [rewrite !app_assoc_str; reflexivity|].
    repeat split; try tauto; try discriminate; eauto.
    cbn [all_chars]. rewrite Ha. assumption.
Qed.

(** X1. A line that matches is made the way [definition_re] spells it:
    blanks, a hash sign, blanks, the word define, blanks, the name (a
    non-empty run of word characters), then blanks or a parenthesised
    parameter (a non-empty run of word characters) with blanks after it,
    then the definition, non-empty and without a newline, followed by a
    newline or by nothing. *)
Theorem definition_line_parts (line name definition : string)
    (parameter : option string) :
  match_definition line = Some (name, parameter, definition) →
  definition_line line name parameter definition.
Proof. apply match_definition_sound. Qed.

Lemma definition_line_parts_witness :
  definition_line ("#define PSA_SUCCESS ((psa_status_t)0)" +:+ nl)
    "PSA_SUCCESS" None "((psa_status_t)0)".
Proof. apply definition_line_parts. vm_compute. reflexivity. Defined.

(** ** What [hash_re] finds *)

Lemma re_search_eq (r : regex) (s : string) :
  re_search r s
  = match re_match r s with
    | Some _ => true
    | None =>
        match s with
        | EmptyString => false
        | String _ s' => re_search r s'
        end
    end.
Proof. destruct s; reflexivity. Qed.

Lemma rmatch_lit_app {A : Type} (w : string) :
  ∀ (k : string → groups → option A) (s : string) (g : groups),
    rmatch (Lit w) (w +:+ s) g k = k s g.
Proof.
  induction w as [|c w IH]; intros k s g; [reflexivity|].
  cbn [Lit]. rewrite app_cons, rmatch_seq, rmatch_chr, Ascii.eqb_refl.
  apply IH.
Qed.

Lemma rmatch_cls_some {A : Type} (p : ascii → bool)
    (k : string → groups → option A) (s : string) (g : groups) (x : A) :
  rmatch (Cls p) s g k = Some x →
  ∃ a s', s = String a s' ∧ p a = true ∧ k s' g = Some x.
Proof.
  destruct s as [|a s]; [discriminate|]. rewrite rmatch_cls.
  destruct (p a) eqn:Hp; [|discriminate]. eauto.
Qed.

(** [hash_re] matches at the start of a text exactly when the text starts
    with [0x010000] and two hexadecimal digits. *)
Lemma hash_re_match (s : string) :
  is_Some (re_match hash_re s)
  ↔ ∃ h1 h2 rest,
      s = "0x010000" +:+ String h1 (String h2 rest)
      ∧ is_hex h1 = true ∧ is_hex h2 = true.
Proof.
  unfold re_match, hash_re. cbn [Seqs]. split.
  - intros [g H]. rewrite rmatch_seq in H.
    apply rmatch_lit_some in H as (s1 & -> & H).
    rewrite rmatch_seq in H.
    apply rmatch_cls_some in H as (h1 & s2 & -> & H1 & H).
    apply rmatch_cls_some in H as (h2 & s3 & -> & H2 & H).
    eauto 6.
  - intros (h1 & h2 & rest & -> & H1 & H2).
    rewrite rmatch_seq, rmatch_lit_app, rmatch_seq, rmatch_cls, H1,
      rmatch_cls, H2. eauto.
Qed.

Lemma hash_re_search (s : string) :
  re_search hash_re s = true
  ↔ ∃ pre h1 h2 rest,
      s = pre +:+ "0x010000" +:+ String h1 (String h2 rest)
      ∧ is_hex h1 = true ∧ is_hex h2 = true.
Proof.
  split.
  - induction s as [|a s IH]; rewrite re_search_eq.
    + destruct (re_match hash_re "") as [g|] eqn:Hm; [|discriminate].
      intros _. destruct (proj1 (hash_re_match "")) as (h1 & h2 & rest & H & _);
        [rewrite Hm; eauto | discriminate].
    + destruct (re_match hash_re (String a s)) as [g|] eqn:Hm.
      * intros _.
        destruct (proj1 (hash_re_match (String a s)))
          as (h1 & h2 & rest & H & H1 & H2); [rewrite Hm; eauto|].
        exists "", h1, h2, rest. auto.
      * intros H. destruct (IH H) as (pre & h1 & h2 & rest & -> & H1 & H2).
        exists (String a pre), h1, h2, rest. auto.
  - intros (pre & h1 & h2 & rest & -> & H1 & H2).
    induction pre as [|a pre IH]; rewrite re_search_eq.
    + destruct (proj2 (hash_re_match ("" +:+ "0x010000" +:+ String h1 (String h2 rest))))
        as [g ->]; [exists h1, h2, rest; auto | reflexivity].
    + rewrite app_cons.
      destruct (re_match hash_re _); [reflexivity | exact IH].
Qed.

(** X2. [hash_re] is found in a text exactly when the text holds
    [0x010000] followed by two hexadecimal digits, of either case. *)
Theorem hash_re_finds (s : string) :
  re_search hash_re s = true
  ↔ ∃ pre h1 h2 rest,
      s = pre +:+ "0x010000" +:+ String h1 (String h2 rest)
      ∧ is_hex h1 = true ∧ is_hex h2 = true.
Proof. apply hash_re_search. Qed.

(** ** Lines that the rule chain lets pass *)

Lemma startswith_trans (s q p : string) :
  startswith s q = true → startswith q p = true → startswith s p = true.
Proof.
  intros Hq Hp. apply startswith_app in Hq as [r1 ->].
  apply startswith_app in Hp as [r2 ->].
  apply startswith_app. exists (r2 +:+ r1). apply app_assoc_str.
Qed.

(** A name that does not start with [PSA_] meets no rule. *)
Lemma classify_foreign name parameter definition c :
  startswith name "PSA_" = false → classify name parameter definition c = c.
Proof.
  intros H.
  assert (∀ q, startswith q "PSA_" = true → startswith name q = false) as Hq.
  { intros q Hq. destruct (startswith name q) eqn:E; [|reflexivity].
    rewrite (startswith_trans name q "PSA_" E Hq) in H. discriminate. }
  assert (Str.eqb name "PSA_SUCCESS" = false) as Hs.
  { destruct (Str.eqb_spec name "PSA_SUCCESS") as [->|]; [discriminate | reflexivity]. }
  unfold classify.
  rewrite Hs, !Hq by reflexivity. cbn [orb andb].
  destruct (endswith name "_FLAG" || endswith name "MASK"); reflexivity.
Qed.

(** A parameter that is neither [curve] nor [hash_alg] meets no rule. *)
Lemma classify_other_parameter name p definition c :
  p ≠ "" → p ≠ "curve" → p ≠ "hash_alg" →
  classify name (Some p) definition c = c.
Proof.
  intros H0 H1 H2. unfold classify.
  assert (not_ (Some p) = false) as -> by (destruct p; [congruence | reflexivity]).
  assert (param_is (Some p) "curve" = false) as ->
    by (unfold param_is; destruct (Str.eqb_spec p "curve"); congruence).
  assert (param_is (Some p) "hash_alg" = false) as ->
    by (unfold param_is; destruct (Str.eqb_spec p "hash_alg"); congruence).
  rewrite !andb_false_r.
  destruct (endswith name "_FLAG" || endswith name "MASK"); reflexivity.
Qed.

(** The definition text is read by the hash test only. *)
Lemma classify_definition_only_hash name parameter d1 d2 c k :
  k ≠ HashAlgorithms →
  members k (classify name parameter d1 c)
  = members k (classify name parameter d2 c).
Proof.
  intros Hk. unfold classify.
  repeat match goal with
         | |- context [if ?b then _ else _] => destruct b
         end; destruct k; try congruence; reflexivity.
Qed.

Lemma classify_definition_dicts name parameter d1 d2 c :
  key_types_from_curve (classify name parameter d1 c)
  = key_types_from_curve (classify name parameter d2 c)
  ∧ algorithms_from_hash (classify name parameter d1 c)
    = algorithms_from_hash (classify name parameter d2 c).
Proof.
  unfold classify.
  repeat match goal with
         | |- context [if ?b then _ else _] => destruct b
         end; split; reflexivity.
Qed.

(** The chain only adds. *)
Lemma classify_grows name parameter definition c k :
  members k c ⊆ members k (classify name parameter definition c).
Proof.
  unfold classify.
  repeat match goal with
         | |- context [if ?b then _ else _] => destruct b
         end; destruct k; unfold_updates; cbn [members];
    unfold_updates; rewrite ?dom_insert_L; set_solver.
Qed.

Lemma read_file_grows (header_file : list string) c k :
  members k c ⊆ members k (read_file c header_file).
Proof.
  induction header_file as [|line header_file IH] using rev_ind; [reflexivity|].
  rewrite read_file_snoc. etrans; [exact IH|].
  unfold read_line. destruct (match_definition line) as [[[n p] d]|];
    [apply classify_grows | reflexivity].
Qed.

(** X3. A macro whose parameter is neither [curve] nor [hash_alg] leaves
    the collector as it was, whatever its name. *)
Theorem other_parameter_ignored (c : MacroCollector)
    (line name p definition : string) :
  match_definition line = Some (name, Some p, definition) →
  p ≠ "curve" → p ≠ "hash_alg" →
  read_line c line = c.
Proof.
  intros Hm H1 H2. unfold read_line. rewrite Hm.
  apply classify_other_parameter; try assumption.
  apply match_definition_sound in Hm
    as (b1 & b2 & b3 & mid & rest & _ & _ & _ & _ & _ & Hp & _).
  tauto.
Qed.

Lemma other_parameter_ignored_witness :
  read_line init
    ("#define PSA_ALG_IS_HASH(alg) (((alg) & 0x7f000000) == 0x01000000)" +:+ nl)
  = init.
Proof.
  apply (other_parameter_ignored init _ "PSA_ALG_IS_HASH" "alg"
           "(((alg) & 0x7f000000) == 0x01000000)");
    [vm_compute; reflexivity | discriminate | discriminate].
Defined.

(** X4. A macro whose name does not start with [PSA_] leaves the collector
    as it was. *)
Theorem foreign_name_ignored (c : MacroCollector)
    (line name definition : string) (parameter : option string) :
  match_definition line = Some (name, parameter, definition) →
  startswith name "PSA_" = false →
  read_line c line = c.
Proof.
  intros Hm H. unfold read_line. rewrite Hm. apply classify_foreign, H.
Qed.

Lemma foreign_name_ignored_witness :
  read_line init ("#define MBEDTLS_PSA_CRYPTO_H 1" +:+ nl) = init.
Proof.
  apply (foreign_name_ignored init _ "MBEDTLS_PSA_CRYPTO_H" "1" None);
    vm_compute; reflexivity.
Defined.

(** X5. The definition text is read by the hash test only: two lines that
    give the same name and parameter leave the same collector, but for
    [hash_algorithms]. *)
Theorem definition_read_by_hash_test_only (c : MacroCollector)
    (line1 line2 name d1 d2 : string) (parameter : option string) :
  match_definition line1 = Some (name, parameter, d1) →
  match_definition line2 = Some (name, parameter, d2) →
  (∀ k, k ≠ HashAlgorithms →
        members k (read_line c line1) = members k (read_line c line2))
  ∧ key_types_from_curve (read_line c line1)
    = key_types_from_curve (read_line c line2)
  ∧ algorithms_from_hash (read_line c line1)
    = algorithms_from_hash (read_line c line2).
Proof.
  intros H1 H2. unfold read_line. rewrite H1, H2. split.
  - intros k Hk. apply classify_definition_only_hash, Hk.
  - apply classify_definition_dicts.
Qed.

Lemma definition_read_by_hash_test_only_witness :
  members Algorithms
    (read_line init ("#define PSA_ALG_SHA_256 ((psa_algorithm_t)0x01000009)" +:+ nl))
  = members Algorithms (read_line init ("#define PSA_ALG_SHA_256 0" +:+ nl)).
Proof.
  assert (match_definition
            ("#define PSA_ALG_SHA_256 ((psa_algorithm_t)0x01000009)" +:+ nl)
          = Some ("PSA_ALG_SHA_256", None, "((psa_algorithm_t)0x01000009)"))
    as H1 by (vm_compute; reflexivity).
  assert (match_definition ("#define PSA_ALG_SHA_256 0" +:+ nl)
          = Some ("PSA_ALG_SHA_256", None, "0"))
    as H2 by (vm_compute; reflexivity).
  destruct (definition_read_by_hash_test_only init _ _ _ _ _ _ H1 H2)
    as [H _].
  apply H. discriminate.
Defined.

(** X6. Reading lines never takes a name out of a category. *)
Theorem collector_grows (header_file : list string) (c : MacroCollector)
    (k : category) :
  members k c ⊆ members k (read_file c header_file).
Proof. apply read_file_grows. Qed.

(** ** The rule chain in closed form *)

(** Finds an element in a list written out. *)
Ltac list_member :=
  repeat first [ apply list_elem_of_here | apply list_elem_of_further ].

(** The prefixes of the rules shut each other out, but for the padding
    modes, which are under [PSA_ALG_]. *)
Lemma rule_prefixes (name : string) :
  let e := startswith name "PSA_ERROR_" in
  let s := Str.eqb name "PSA_SUCCESS" in
  let t := startswith name "PSA_KEY_TYPE_" in
  let v := startswith name "PSA_ECC_CURVE_" in
  let p := startswith name "PSA_ALG_BLOCK_CIPHER_PAD_" in
  let a := startswith name "PSA_ALG_" in
  let u := startswith name "PSA_KEY_USAGE_" in
  (e, s, t, v, p, a, u)
  ∈ [ (false, false, false, false, false, false, false);
      (true, false, false, false, false, false, false);
      (false, true, false, false, false, false, false);
      (false, false, true, false, false, false, false);
      (false, false, false, true, false, false, false);
      (false, false, false, false, true, true, false);
      (false, false, false, false, false, true, false);
      (false, false, false, false, false, false, true) ].
Proof.
  intros e s t v p a u. subst e s t v p a u.
  destruct (Str.eqb_spec name "PSA_SUCCESS") as [->|_];
    [vm_compute; list_member|].
  destruct (startswith name "PSA_ERROR_") eqn:He;
  destruct (startswith name "PSA_KEY_TYPE_") eqn:Ht;
  destruct (startswith name "PSA_ECC_CURVE_") eqn:Hv;
  destruct (startswith name "PSA_ALG_BLOCK_CIPHER_PAD_") eqn:Hp;
  destruct (startswith name "PSA_ALG_") eqn:Ha;
  destruct (startswith name "PSA_KEY_USAGE_") eqn:Hu;
    try (list_member; fail);
    exfalso;
    try (rewrite (startswith_trans name "PSA_ALG_BLOCK_CIPHER_PAD_" "PSA_ALG_"
                    Hp eq_refl) in Ha; discriminate);
    match goal with
    | H1 : startswith name ?x = true, H2 : startswith name ?y = true |- _ =>
        pose proof (prefix_clash name x y H1 eq_refl eq_refl); congruence
    end.
Qed.

Lemma param_bits (parameter : option string) :
  (not_ parameter, param_is parameter "curve", param_is parameter "hash_alg")
  ∈ [ (true, false, false); (false, true, false); (false, false, true);
      (false, false, false) ].
Proof.
  destruct parameter as [p|]; [|list_member].
  destruct p as [|a p]; [vm_compute; list_member|].
  cbn [not_]. unfold param_is.
  destruct (Str.eqb_spec (String a p) "curve") as [->|];
    [vm_compute; list_member|].
  destruct (Str.eqb_spec (String a p) "hash_alg"); list_member.
Qed.

Lemma classify_by_rule name parameter definition c k :
  members k (classify name parameter definition c)
  = if admits k name parameter definition
    then {[name]} ∪ members k c else members k c.
Proof.
  unfold classify, admits, taken_before, helper_only.
  destruct (endswith name "_FLAG" || endswith name "MASK"); [reflexivity|].
  unfold rule_test, rule_body.
  pose proof (rule_prefixes name) as Hn. cbv zeta in Hn.
  pose proof (param_bits parameter) as Hp.
  repeat (apply elem_of_cons in Hn as [Hn|Hn]);
    [injection Hn as -> -> -> -> -> -> -> .. | inversion Hn];
    (repeat (apply elem_of_cons in Hp as [Hp|Hp]);
     [injection Hp as -> -> -> .. | inversion Hp]);
    cbn [negb andb orb];
    destruct (in_list name base_names);
    destruct (in_list name randomized_names);
    destruct (re_search hash_re definition);
    destruct k; unfold_updates; cbn [members negb andb orb];
    unfold_updates; rewrite ?dom_insert_L; reflexivity.
Qed.

(** The tests of two rules pass one macro for one pair of rules only. *)
Lemma rule_tests_apart name parameter k1 k2 :
  rule_test k1 name parameter = true →
  rule_test k2 name parameter = true →
  tests_overlap k1 k2 = true.
Proof.
  unfold rule_test.
  pose proof (rule_prefixes name) as Hn. cbv zeta in Hn.
  pose proof (param_bits parameter) as Hp.
  repeat (apply elem_of_cons in Hn as [Hn|Hn]);
    [injection Hn as -> -> -> -> -> -> -> .. | inversion Hn];
    (repeat (apply elem_of_cons in Hp as [Hp|Hp]);
     [injection Hp as -> -> -> .. | inversion Hp]);
    destruct k1, k2; cbn [negb andb orb tests_overlap];
    intros; first [reflexivity | discriminate].
Qed.

(** X7. What a matching line does to each of the nine categories, in
    closed form.  Its name is added to a category when the name does not
    end in [_FLAG] or [MASK], the test of the rule of the category passes
    the macro, the rule of the padding modes does not take it from the
    algorithm sets, and the body of the rule does not skip it (the three
    base names, and for the hash algorithms the pattern of the value);
    otherwise the category is left as it was.  The tests of two rules
    pass one macro for one pair of rules only, padding modes and
    algorithms: the order of the chain can matter in two places, the
    suffix test that comes first and the rule of the padding modes that
    comes before the rule of the algorithms. *)
Theorem rule_chain_closed_form (c : MacroCollector)
    (line name definition : string) (parameter : option string) :
  match_definition line = Some (name, parameter, definition) →
  (∀ k, members k (read_line c line)
        = if admits k name parameter definition
          then {[name]} ∪ members k c else members k c)
  ∧ (∀ k1 k2,
       rule_test k1 name parameter = true →
       rule_test k2 name parameter = true →
       tests_overlap k1 k2 = true).
Proof.
  intros Hm. split.
  - intros k. unfold read_line. rewrite Hm. apply classify_by_rule.
  - intros k1 k2. apply rule_tests_apart.
Qed.

Lemma rule_chain_closed_form_witness :
  members Algorithms
    (read_line init
       ("#define PSA_ALG_BLOCK_CIPHER_PAD_PKCS7 ((psa_algorithm_t)0x01)" +:+ nl))
  = if admits Algorithms "PSA_ALG_BLOCK_CIPHER_PAD_PKCS7" None
         "((psa_algorithm_t)0x01)"
    then {[ "PSA_ALG_BLOCK_CIPHER_PAD_PKCS7" ]} ∪ members Algorithms init
    else members Algorithms init.
Proof.
  apply (proj1 (rule_chain_closed_form init
                  ("#define PSA_ALG_BLOCK_CIPHER_PAD_PKCS7 ((psa_algorithm_t)0x01)"
                   +:+ nl)
                  "PSA_ALG_BLOCK_CIPHER_PAD_PKCS7" "((psa_algorithm_t)0x01)"
                  None (ltac:(vm_compute; reflexivity)))).
Defined.

(** ** The collector as the union of what each line gives *)

Lemma classify_members_union name parameter definition c k :
  members k (classify name parameter definition c)
  = members k c ∪ members k (classify name parameter definition init).
Proof.
  unfold classify.
  repeat match goal with
         | |- context [if ?b then _ else _] => destruct b
         end; destruct k; unfold_updates; cbn [members init];
    unfold_updates; rewrite ?dom_insert_L, ?dom_empty_L; set_solver.
Qed.

Lemma param_is_not (parameter : option string) (v : string) :
  v ≠ "" → param_is parameter v = true → not_ parameter = false.
Proof.
  intros Hv H. destruct parameter as [p|]; [|discriminate].
  apply Str.eqb_eq in H. subst. destruct v; [congruence | reflexivity].
Qed.

Lemma param_is_one (parameter : option string) (v w : string) :
  v ≠ w → param_is parameter v = true → param_is parameter w = false.
Proof.
  intros Hv H. destruct parameter as [p|]; [|discriminate].
  apply Str.eqb_eq in H. subst. cbn [param_is].
  destruct (Str.eqb_spec v w); congruence.
Qed.

Lemma classify_key_types_from_curve name parameter definition c :
  key_types_from_curve (classify name parameter definition c)
  = if stores_key_type_tester name parameter
    then <[name := key_type_tester name]> (key_types_from_curve c)
    else key_types_from_curve c.
Proof.
  unfold classify, stores_key_type_tester, helper_only.
  destruct (endswith name "_FLAG" || endswith name "MASK"); [reflexivity|].
  cbn [negb andb].
  destruct (param_is parameter "curve") eqn:Hp.
  - rewrite (param_is_not parameter "curve") by (discriminate || assumption).
    rewrite !andb_false_r, andb_true_r.
    destruct (startswith name "PSA_KEY_TYPE_") eqn:Hk; [reflexivity|].
    rewrite (param_is_one parameter "curve" "hash_alg")
      by (discriminate || assumption).
    rewrite !andb_false_r. reflexivity.
  - rewrite !andb_false_r.
    repeat match goal with
           | |- context [if ?b then _ else _] => destruct b
           end; reflexivity.
Qed.

Lemma classify_algorithms_from_hash name parameter definition c :
  algorithms_from_hash (classify name parameter definition c)
  = if stores_algorithm_tester name parameter
    then <[name := algorithm_tester name]> (algorithms_from_hash c)
    else algorithms_from_hash c.
Proof.
  unfold classify, stores_algorithm_tester, algorithm_tester, helper_only.
  destruct (endswith name "_FLAG" || endswith name "MASK"); [reflexivity|].
  cbn [negb andb].
  destruct (param_is parameter "hash_alg") eqn:Hp.
  - rewrite (param_is_not parameter "hash_alg") by (discriminate || assumption).
    rewrite (param_is_one parameter "hash_alg" "curve")
      by (discriminate || assumption).
    rewrite !andb_false_r, andb_true_r.
    destruct (startswith name "PSA_ALG_"); [|reflexivity].
    destruct (in_list name randomized_names); reflexivity.
  - rewrite !andb_false_r.
    repeat match goal with
           | |- context [if ?b then _ else _] => destruct b
           end; reflexivity.
Qed.

Section Dict.

(** One of the two dicts, with the rule that stores into it and the
    tester stored for a name. *)
Variable proj : MacroCollector → gmap string string.
Variable stores : string → option string → bool.
Variable tester : string → string.
Hypothesis proj_init : proj init = ∅.
Hypothesis proj_classify :
  ∀ name parameter definition c,
    proj (classify name parameter definition c)
    = if stores name parameter then <[name := tester name]> (proj c)
      else proj c.

Lemma dict_read_line_init (line k v : string) :
  proj (read_line init line) !! k = Some v → v = tester k.
Proof.
  unfold read_line. destruct (match_definition line) as [[[n p] d]|].
  - rewrite proj_classify, proj_init. destruct (stores n p).
    + rewrite lookup_insert. case_decide; [|rewrite lookup_empty; discriminate].
      subst. congruence.
    + rewrite lookup_empty. discriminate.
  - rewrite proj_init, lookup_empty. discriminate.
Qed.

Lemma dict_read_line (c : MacroCollector) (line : string) :
  proj (read_line c line) = proj (read_line init line) ∪ proj c.
Proof.
  unfold read_line. destruct (match_definition line) as [[[n p] d]|].
  - rewrite !proj_classify, proj_init. destruct (stores n p).
    + rewrite insert_empty. apply insert_union_singleton_l.
    + rewrite (left_id_L ∅ (∪)). reflexivity.
  - rewrite proj_init, (left_id_L ∅ (∪)). reflexivity.
Qed.

Lemma dict_read_file (header_file : list string) (k v : string) :
  proj (read_file init header_file) !! k = Some v
  ↔ ∃ line, line ∈ header_file ∧ proj (read_line init line) !! k = Some v.
Proof.
  induction header_file as [|x l IH] using rev_ind.
  - cbn. rewrite proj_init, lookup_empty. split; [discriminate|].
    intros (line & Hin & _). inversion Hin.
  - rewrite read_file_snoc, dict_read_line, lookup_union_Some_raw, IH.
    split.
    + intros [H|[_ (line & Hin & H)]].
      * exists x. split; [apply elem_of_app; right; constructor | exact H].
      * exists line. split; [apply elem_of_app; left; exact Hin | exact H].
    + intros (line & Hin & H). apply elem_of_app in Hin as [Hin|Hin].
      * destruct (proj (read_line init x) !! k) as [v'|] eqn:Hx.
        -- left. apply dict_read_line_init in Hx, H. congruence.
        -- right. split; [reflexivity|]. eauto.
      * apply list_elem_of_singleton in Hin. subst. left. exact H.
Qed.

End Dict.

Lemma key_types_from_curve_read_file (header_file : list string) (k v : string) :
  key_types_from_curve (read_file init header_file) !! k = Some v
  ↔ ∃ line, line ∈ header_file
            ∧ key_types_from_curve (read_line init line) !! k = Some v.
Proof.
  apply (dict_read_file key_types_from_curve stores_key_type_tester
           key_type_tester); [reflexivity|].
  intros. apply classify_key_types_from_curve.
Qed.

Lemma algorithms_from_hash_read_file (header_file : list string) (k v : string) :
  algorithms_from_hash (read_file init header_file) !! k = Some v
  ↔ ∃ line, line ∈ header_file
            ∧ algorithms_from_hash (read_line init line) !! k = Some v.
Proof.
  apply (dict_read_file algorithms_from_hash stores_algorithm_tester
           algorithm_tester); [reflexivity|].
  intros. apply classify_algorithms_from_hash.
Qed.

Lemma members_read_line (c : MacroCollector) (line : string) (k : category) :
  members k (read_line c line) = members k c ∪ members k (read_line init line).
Proof.
  unfold read_line. destruct (match_definition line) as [[[n p] d]|].
  - apply classify_members_union.
  - destruct k; cbn; rewrite ?dom_empty_L; set_solver.
Qed.

Lemma members_read_file (header_file : list string) (k : category) (x : string) :
  x ∈ members k (read_file init header_file)
  ↔ ∃ line, line ∈ header_file ∧ x ∈ members k (read_line init line).
Proof.
  induction header_file as [|y l IH] using rev_ind.
  - split.
    + destruct k; cbn; rewrite ?dom_empty_L; set_solver.
    + intros (line & Hin & _). inversion Hin.
  - rewrite read_file_snoc, members_read_line, elem_of_union, IH.
    setoid_rewrite elem_of_app. setoid_rewrite list_elem_of_singleton.
    naive_solver.
Qed.

Lemma collector_eq (c1 c2 : MacroCollector) :
  (∀ k, members k c1 = members k c2) →
  key_types_from_curve c1 = key_types_from_curve c2 →
  algorithms_from_hash c1 = algorithms_from_hash c2 →
  c1 = c2.
Proof.
  intros Hm Hk Ha. destruct c1, c2. cbn in Hk, Ha. subst.
  pose proof (Hm Statuses). pose proof (Hm KeyTypes). pose proof (Hm EccCurves).
  pose proof (Hm Algorithms). pose proof (Hm HashAlgorithms).
  pose proof (Hm BlockCipherPaddingModes). pose proof (Hm KeyUsages).
  cbn in *. congruence.
Qed.

Lemma same_lines_same_collector (l1 l2 : list string) :
  (∀ line, line ∈ l1 ↔ line ∈ l2) →
  read_file init l1 = read_file init l2.
Proof.
  intros H. apply collector_eq.
  - intros k. apply set_eq. intros x. rewrite !members_read_file.
    setoid_rewrite H. reflexivity.
  - apply map_eq. intros k. apply option_eq. intros v.
    rewrite !key_types_from_curve_read_file. setoid_rewrite H. reflexivity.
  - apply map_eq. intros k. apply option_eq. intros v.
    rewrite !algorithms_from_hash_read_file. setoid_rewrite H. reflexivity.
Qed.

(** X8. For a macro under [PSA_KEY_TYPE_] with the single parameter
    [curve] whose name ends neither in [_FLAG] nor in [MASK], [read_line]
    stores under the name, in [key_types_from_curve], the name with [IS_]
    put after the prefix; nothing else changes. *)
Theorem tester_of_key_type (c : MacroCollector)
    (line rest definition : string) :
  let name := "PSA_KEY_TYPE_" +:+ rest in
  match_definition line = Some (name, Some "curve", definition) →
  endswith name "_FLAG" = false →
  endswith name "MASK" = false →
  read_line c line
  = set_key_type_from_curve name ("PSA_KEY_TYPE_" +:+ "IS_" +:+ rest) c.
Proof.
  intros name Hm Hflag Hmask.
  assert (startswith name "PSA_KEY_TYPE_" = true) as Hk
    by (apply startswith_app; exists rest; reflexivity).
  assert (startswith name "PSA_ERROR_" = false) as He by other_prefix Hk.
  assert (take_str 13 name = "PSA_KEY_TYPE_") as Htake
    by apply (take_str_app "PSA_KEY_TYPE_").
  assert (drop_str 13 name = rest) as Hdrop
    by apply (drop_str_app "PSA_KEY_TYPE_").
  unfold read_line, classify.
  rewrite Hm, Hflag, Hmask, He, Hk, Htake, Hdrop.
  change (not_ (Some "curve")) with false.
  change (param_is (Some "curve") "curve") with true.
  rewrite !andb_false_r. reflexivity.
Qed.

Lemma tester_of_key_type_witness :
  read_line init
    ("#define PSA_KEY_TYPE_ECC_KEYPAIR(curve) (0x07030000 | (curve))" +:+ nl)
  = set_key_type_from_curve "PSA_KEY_TYPE_ECC_KEYPAIR"
      "PSA_KEY_TYPE_IS_ECC_KEYPAIR" init.
Proof.
  apply (tester_of_key_type init _ "ECC_KEYPAIR" "(0x07030000 | (curve))");
    vm_compute; reflexivity.
Defined.

(** X9. [read_line] changes a dict only for such a macro:
    [key_types_from_curve] only for a name under [PSA_KEY_TYPE_] with the
    parameter [curve], [algorithms_from_hash] only for a name under
    [PSA_ALG_] with the parameter [hash_alg], the name ending neither in
    [_FLAG] nor in [MASK]. *)
Theorem dicts_change_only_by_their_rules (c : MacroCollector) (line : string) :
  (key_types_from_curve (read_line c line) ≠ key_types_from_curve c →
   ∃ name definition,
     match_definition line = Some (name, Some "curve", definition)
     ∧ startswith name "PSA_KEY_TYPE_" = true
     ∧ helper_only name = false)
  ∧ (algorithms_from_hash (read_line c line) ≠ algorithms_from_hash c →
     ∃ name definition,
       match_definition line = Some (name, Some "hash_alg", definition)
       ∧ startswith name "PSA_ALG_" = true
       ∧ helper_only name = false).
Proof.
  unfold read_line.
  destruct (match_definition line) as [[[n p] d]|]; [|split; congruence].
  rewrite classify_key_types_from_curve, classify_algorithms_from_hash.
  split; intros H.
  - destruct (stores_key_type_tester n p) eqn:Hs; [|congruence].
    unfold stores_key_type_tester in Hs. split_bools.
    exists n, d. repeat split; try assumption.
    destruct p as [p|]; [|discriminate]. repeat f_equal.
    apply Str.eqb_eq. assumption.
  - destruct (stores_algorithm_tester n p) eqn:Hs; [|congruence].
    unfold stores_algorithm_tester in Hs. split_bools.
    exists n, d. repeat split; try assumption.
    destruct p as [p|]; [|discriminate]. repeat f_equal.
    apply Str.eqb_eq. assumption.
Qed.

Lemma dicts_change_only_by_their_rules_witness :
  ∃ name definition,
    match_definition
      ("#define PSA_ALG_HMAC(hash_alg) (0x02800000 | (hash_alg))" +:+ nl)
    = Some (name, Some "hash_alg", definition)
    ∧ startswith name "PSA_ALG_" = true
    ∧ helper_only name = false.
Proof.
  apply (proj2 (dicts_change_only_by_their_rules init _)).
  intros H. apply (f_equal (λ m, m !! "PSA_ALG_HMAC")) in H.
  vm_compute in H. discriminate H.
Defined.

(** X10. The collector of a header is the union of what each line gives on
    its own: a name is in a category exactly when some line of the header
    puts it there, and a dict maps a key to a tester exactly when some
    line of the header does. *)
Theorem collector_is_union (header_file : list string) :
  let c := read_file init header_file in
  (∀ k x,
      x ∈ members k c
      ↔ ∃ line, line ∈ header_file ∧ x ∈ members k (read_line init line))
  ∧ (∀ k v,
        key_types_from_curve c !! k = Some v
        ↔ ∃ line, line ∈ header_file
                  ∧ key_types_from_curve (read_line init line) !! k = Some v)
  ∧ (∀ k v,
        algorithms_from_hash c !! k = Some v
        ↔ ∃ line, line ∈ header_file
                  ∧ algorithms_from_hash (read_line init line) !! k = Some v).
Proof.
  intros c. split; [|split].
  - intros k x. apply members_read_file.
  - intros k v. apply key_types_from_curve_read_file.
  - intros k v. apply algorithms_from_hash_read_file.
Qed.

(** X11. Neither the order of the lines of a header nor their repetition
    matters: two headers with the same lines give the same collector, and
    so the same text. *)
Theorem line_order_irrelevant (l1 l2 : list string) :
  (∀ line, line ∈ l1 ↔ line ∈ l2) →
  read_file init l1 = read_file init l2
  ∧ ∀ iter, write_file iter (read_file init l1)
            = write_file iter (read_file init l2).
Proof.
  intros H. pose proof (same_lines_same_collector l1 l2 H) as ->. auto.
Qed.

Lemma line_order_irrelevant_witness :
  read_file init
    [ "#define PSA_SUCCESS ((psa_status_t)0)" +:+ nl;
      "#define PSA_ALG_MD5 ((psa_algorithm_t)0x01000003)" +:+ nl ]
  = read_file init
      [ "#define PSA_ALG_MD5 ((psa_algorithm_t)0x01000003)" +:+ nl;
        "#define PSA_SUCCESS ((psa_status_t)0)" +:+ nl;
        "#define PSA_ALG_MD5 ((psa_algorithm_t)0x01000003)" +:+ nl ].
Proof.
  apply line_order_irrelevant. intros line.
  rewrite !elem_of_cons, !elem_of_nil. tauto.
Defined.

(** ** The testers in the dicts *)

Lemma stored_key_type_tester (header_file : list string) (k v : string) :
  key_types_from_curve (read_file init header_file) !! k = Some v →
  ∃ rest, k = "PSA_KEY_TYPE_" +:+ rest ∧ v = "PSA_KEY_TYPE_IS_" +:+ rest.
Proof.
  intros H. apply key_types_from_curve_read_file in H as (line & _ & H).
  unfold read_line in H.
  destruct (match_definition line) as [[[n p] d]|];
    [|cbn in H; rewrite lookup_empty in H; discriminate].
  rewrite classify_key_types_from_curve in H.
  cbn [key_types_from_curve init] in H.
  destruct (stores_key_type_tester n p) eqn:Hs;
    [|rewrite lookup_empty in H; discriminate].
  rewrite lookup_insert in H. case_decide; [|rewrite lookup_empty in H; discriminate].
  subst n. injection H as <-.
  unfold stores_key_type_tester in Hs. split_bools.
  match goal with
  | Hp : startswith k _ = true |- _ => apply startswith_app in Hp as [rest ->]
  end.
  exists rest. split; [reflexivity|]. unfold key_type_tester.
  rewrite (take_str_app "PSA_KEY_TYPE_"), (drop_str_app "PSA_KEY_TYPE_").
  reflexivity.
Qed.

Lemma stored_algorithm_tester (header_file : list string) (k v : string) :
  algorithms_from_hash (read_file init header_file) !! k = Some v →
  ∃ rest,
    k = "PSA_ALG_" +:+ rest
    ∧ v = "PSA_ALG_"
          +:+ (if in_list k randomized_names then "IS_RANDOMIZED_" else "IS_")
          +:+ rest.
Proof.
  intros H. apply algorithms_from_hash_read_file in H as (line & _ & H).
  unfold read_line in H.
  destruct (match_definition line) as [[[n p] d]|];
    [|cbn in H; rewrite lookup_empty in H; discriminate].
  rewrite classify_algorithms_from_hash in H.
  cbn [algorithms_from_hash init] in H.
  destruct (stores_algorithm_tester n p) eqn:Hs;
    [|rewrite lookup_empty in H; discriminate].
  rewrite lookup_insert in H. case_decide; [|rewrite lookup_empty in H; discriminate].
  subst n. injection H as <-.
  unfold stores_algorithm_tester in Hs. split_bools.
  match goal with
  | Hp : startswith k _ = true |- _ => apply startswith_app in Hp as [rest ->]
  end.
  exists rest. split; [reflexivity|]. unfold algorithm_tester.
  rewrite (take_str_app "PSA_ALG_"), (drop_str_app "PSA_ALG_").
  destruct (in_list ("PSA_ALG_" +:+ rest) randomized_names); reflexivity.
Qed.

(** X12. In the collector of any header, a tester stored in
    [key_types_from_curve] is its key with [IS_] put after
    [PSA_KEY_TYPE_], and a tester stored in [algorithms_from_hash] is its
    key with [IS_RANDOMIZED_] (for the two irregular names) or [IS_] put
    after [PSA_ALG_]. *)
Theorem stored_testers (header_file : list string) (k v : string) :
  let c := read_file init header_file in
  (key_types_from_curve c !! k = Some v →
   ∃ rest, k = "PSA_KEY_TYPE_" +:+ rest ∧ v = "PSA_KEY_TYPE_IS_" +:+ rest)
  ∧ (algorithms_from_hash c !! k = Some v →
     ∃ rest,
       k = "PSA_ALG_" +:+ rest
       ∧ v = "PSA_ALG_"
             +:+ (if in_list k randomized_names
                  then "IS_RANDOMIZED_" else "IS_")
             +:+ rest).
Proof.
  intros c. split;
    [apply stored_key_type_tester | apply stored_algorithm_tester].
Qed.

Lemma stored_testers_witness :
  ∃ rest,
    "PSA_ALG_ECDSA" = "PSA_ALG_" +:+ rest
    ∧ "PSA_ALG_IS_RANDOMIZED_ECDSA"
      = "PSA_ALG_"
        +:+ (if in_list "PSA_ALG_ECDSA" randomized_names
             then "IS_RANDOMIZED_" else "IS_")
        +:+ rest.
Proof.
  apply (proj2 (stored_testers
                  [ "#define PSA_ALG_ECDSA(hash_alg) (0x10030000 | (hash_alg))"
                    +:+ nl ]
                  "PSA_ALG_ECDSA" "PSA_ALG_IS_RANDOMIZED_ECDSA")).
  vm_compute. reflexivity.
Defined.

(** ** Every rendered name is a run of word characters *)

Lemma word_collected (header_file : list string) (x : string) :
  x ∈ collected (read_file init header_file) →
  x ≠ "" ∧ all_chars is_word x = true.
Proof.
  induction header_file as [|line header_file IH] using rev_ind.
  - cbn. set_solver.
  - rewrite read_file_snoc. unfold read_line.
    destruct (match_definition line) as [[[n p] d]|] eqn:Hm; [|exact IH].
    intros Hin. apply classify_collected in Hin.
    apply elem_of_union in Hin as [Hin|Hin]; [|exact (IH Hin)].
    apply elem_of_singleton in Hin. subst x.
    apply match_definition_sound in Hm
      as (b1 & b2 & b3 & mid & rest & _ & _ & _ & _ & Hn & _).
    exact Hn.
Qed.

Lemma word_key (header_file : list string) (k : category) (x : string) :
  x ∈ members k (read_file init header_file) →
  x ≠ "" ∧ all_chars is_word x = true.
Proof.
  intros H. apply (word_collected header_file). unfold collected.
  destruct k; cbn [members] in H; set_solver.
Qed.

Lemma word_tester (header_file : list string) (k v : string) :
  key_types_from_curve (read_file init header_file) !! k = Some v
  ∨ algorithms_from_hash (read_file init header_file) !! k = Some v →
  v ≠ "" ∧ all_chars is_word v = true.
Proof.
  intros [H|H].
  - assert (all_chars is_word k = true) as Hk.
    { apply (word_key header_file KeyTypesFromCurve).
      apply elem_of_dom. eauto. }
    apply stored_key_type_tester in H as (rest & -> & ->).
    rewrite all_chars_app in Hk. apply andb_true_iff in Hk as [_ Hk].
    split; [discriminate|]. rewrite all_chars_app, Hk. reflexivity.
  - assert (all_chars is_word k = true) as Hk.
    { apply (word_key header_file AlgorithmsFromHash).
      apply elem_of_dom. eauto. }
    apply stored_algorithm_tester in H as (rest & -> & ->).
    rewrite all_chars_app in Hk. apply andb_true_iff in Hk as [_ Hk].
    split; [discriminate|].
    rewrite !all_chars_app, Hk.
    destruct (in_list ("PSA_ALG_" +:+ rest) randomized_names); reflexivity.
Qed.

(** X13. Whatever the header, every name in a category and every tester
    in a dict is a non-empty run of characters of the word class of the
    definition pattern (letters, digits and the underscore). *)
Theorem rendered_names_are_words (header_file : list string) :
  let c := read_file init header_file in
  (∀ k x, x ∈ members k c → x ≠ "" ∧ all_chars is_word x = true)
  ∧ (∀ k v,
        key_types_from_curve c !! k = Some v
        ∨ algorithms_from_hash c !! k = Some v →
        v ≠ "" ∧ all_chars is_word v = true).
Proof.
  intros c. split.
  - intros k x. apply word_key.
  - intros k v. apply word_tester.
Qed.

Lemma rendered_names_are_words_witness :
  "PSA_SUCCESS" ≠ "" ∧ all_chars is_word "PSA_SUCCESS" = true.
Proof.
  apply (proj1 (rendered_names_are_words
                  [ "#define PSA_SUCCESS ((psa_status_t)0)" +:+ nl ])
           Statuses).
  apply (bool_decide_unpack _). vm_compute. exact I.
Defined.

(** ** Every name is rendered *)

Lemma contains_eq (s p : string) :
  contains s p
  = (startswith s p
     || match s with
        | EmptyString => false
        | String _ s' => contains s' p
        end).
Proof. destruct s; reflexivity. Qed.

Lemma startswith_app_l (a b p : string) :
  startswith a p = true → startswith (a +:+ b) p = true.
Proof.
  intros H. apply startswith_app in H as [r ->].
  apply startswith_app. exists (r +:+ b). apply app_assoc_str.
Qed.

Lemma contains_app_l (a b p : string) :
  contains a p = true → contains (a +:+ b) p = true.
Proof.
  induction a as [|x a IH]; rewrite contains_eq; intros H.
  - rewrite orb_false_r in H. rewrite contains_eq.
    rewrite (startswith_app_l "" b p H). reflexivity.
  - apply orb_true_iff in H as [H|H]; rewrite contains_eq.
    + rewrite (startswith_app_l _ b p H). reflexivity.
    + rewrite app_cons, (IH H). apply orb_true_r.
Qed.

Lemma contains_app_r (a b p : string) :
  contains b p = true → contains (a +:+ b) p = true.
Proof.
  intros H. induction a as [|x a IH]; [exact H|].
  rewrite contains_eq, app_cons, IH. apply orb_true_r.
Qed.

Lemma contains_refl (s : string) : contains s s = true.
Proof.
  rewrite contains_eq.
  replace (startswith s s) with true; [reflexivity|].
  symmetry. apply startswith_app. exists "". symmetry. apply app_nil_r_str.
Qed.

Lemma contains_join (sep : string) (l : list string) (x : string) :
  x ∈ l → contains (join sep l) x = true.
Proof.
  induction l as [|y l IH]; intros H; [inversion H|].
  apply elem_of_cons in H as [->|H].
  - destruct l as [|z l]; [apply contains_refl|].
    cbn [join]. apply contains_app_l, contains_refl.
  - destruct l as [|z l]; [inversion H|].
    change (join sep (y :: z :: l)) with (y +:+ sep +:+ join sep (z :: l)).
    apply contains_app_r, contains_app_r, IH, H.
Qed.

Lemma elem_of_sorted_iter (iter : gset string → list string) (s : gset string)
    (x : string) :
  (∀ s, iter s ≡ₚ elements s) → x ∈ s → x ∈ sorted (iter s).
Proof.
  intros Hi Hx. rewrite sorted_Permutation, Hi. apply elem_of_elements, Hx.
Qed.

Lemma entry_in_fragment (iter : gset string → list string) (k : category)
    (c : MacroCollector) (x : string) :
  (∀ s, iter s ≡ₚ elements s) →
  x ∈ members k c → contains (fragment iter k c) (entry k c x) = true.
Proof.
  intros Hi Hx.
  destruct k; cbn [fragment entry members] in *;
    unfold make_status_cases, make_key_type_cases, make_key_type_code,
      make_ecc_curve_cases, make_algorithm_cases, make_hash_algorithm_cases,
      make_padding_mode_cases, make_algorithm_code, make_key_usage_code;
    cbv zeta; apply contains_join;
    match goal with
    | |- _ ∈ map ?f _ => apply (list_elem_of_fmap_2 f _ x)
    end; apply elem_of_sorted_iter; assumption.
Qed.

Lemma fragment_in_text (iter : gset string → list string) (k : category)
    (c : MacroCollector) :
  contains (write_file iter c) (fragment iter k c) = true.
Proof.
  unfold write_file.
  destruct k; cbn [fragment];
    repeat first [ apply contains_app_l; apply contains_refl
                 | apply contains_app_r ].
Qed.

(** X14. Every name of a category has its entry in the fragment of the
    category, and every fragment is in the text written. *)
Theorem every_name_rendered (iter : gset string → list string)
    (c : MacroCollector) (k : category) (x : string) :
  (∀ s, iter s ≡ₚ elements s) →
  x ∈ members k c →
  contains (fragment iter k c) (entry k c x) = true
  ∧ contains (write_file iter c) (fragment iter k c) = true.
Proof.
  intros Hi Hx. split; [apply entry_in_fragment; assumption|].
  apply fragment_in_text.
Qed.

Lemma every_name_rendered_witness :
  let c := read_file init [ "#define PSA_SUCCESS ((psa_status_t)0)" +:+ nl ] in
  contains (fragment elements Statuses c) (entry Statuses c "PSA_SUCCESS") = true
  ∧ contains (write_file elements c) (fragment elements Statuses c) = true.
Proof.
  intros c.
  apply (every_name_rendered elements c Statuses "PSA_SUCCESS").
  - intros s. reflexivity.
  - apply (bool_decide_unpack _). vm_compute. exact I.
Defined.

(** ** Runs of the generator *)

Lemma failed_run (iter : gset string → list string)
    (header_file_name output_file_name : string) (e : env) (fs fs' : files) :
  let temp_file_name := output_file_name +:+ ".tmp" in
  generate_psa_constants iter header_file_name output_file_name e fs
  = (Raised, fs') →
  (fs' = fs
   ∧ (fs !! header_file_name = None
      ∨ unreadable e header_file_name = true
      ∨ unwritable e temp_file_name = true))
  ∨ ∃ content,
      fs !! header_file_name = Some content
      ∧ let text := write_file iter (read_file init (readlines content)) in
        (∃ n, write_limit e = Some n ∧ n < len text
              ∧ fs' = <[temp_file_name := take_str n text]> fs)
        ∨ (write_completes e text = true ∧ rename_fails e = true
           ∧ fs' = <[temp_file_name := text]> fs).
Proof.
  intros temp_file_name.
  rewrite generate_psa_constants_eq. cbv zeta. fold temp_file_name.
  unfold write_completes.
  destruct (fs !! header_file_name) as [content|]; [|intros [= <-]; auto].
  destruct (unreadable e header_file_name); [intros [= <-]; auto|].
  destruct (unwritable e temp_file_name); [intros [= <-]; auto|].
  set (text := write_file iter (read_file init (readlines content))).
  intros H. right. exists content. split; [reflexivity|]. cbv zeta.
  fold text.
  destruct (write_limit e) as [n|].
  - destruct (n <? len text) eqn:Hn.
    + injection H as <-. left. exists n. apply Nat.ltb_lt in Hn.
      repeat split; [exact Hn].
    + destruct (rename_fails e); [|discriminate].
      injection H as <-. right. repeat split.
  - destruct (rename_fails e); [|discriminate].
    injection H as <-. right. repeat split.
Qed.

Lemma rerun (iter : gset string → list string)
    (header_file_name output_file_name : string) (e : env) (fs fs1 : files) :
  header_file_name ≠ output_file_name →
  header_file_name ≠ output_file_name +:+ ".tmp" →
  generate_psa_constants iter header_file_name output_file_name e fs
  = (Returned tt, fs1) →
  generate_psa_constants iter header_file_name output_file_name e fs1
  = (Returned tt, fs1).
Proof.
  intros Ho Ht. rewrite !generate_psa_constants_eq. cbv zeta.
  pose proof (temp_name_differs output_file_name) as Hne.
  set (temp := output_file_name +:+ ".tmp") in *.
  destruct (fs !! header_file_name) as [content|] eqn:Hh; [|discriminate].
  destruct (unreadable e header_file_name); [discriminate|].
  destruct (unwritable e temp); [discriminate|].
  set (text := write_file iter (read_file init (readlines content))).
  assert (∀ m : files,
            m = <[output_file_name := text]> (delete temp fs) →
            m !! header_file_name = Some content
            ∧ <[output_file_name := text]> (delete temp m) = m) as Hfix.
  { intros m ->. split.
    - rewrite lookup_insert_ne, lookup_delete_ne by congruence. exact Hh.
    - apply map_eq. intros p.
      destruct (decide (p = output_file_name)) as [->|Hp].
      + rewrite !lookup_insert_eq. reflexivity.
      + rewrite !lookup_insert_ne by congruence.
        destruct (decide (p = temp)) as [->|Hp'].
        * rewrite !lookup_delete_eq. reflexivity.
        * rewrite !lookup_delete_ne by congruence.
          rewrite lookup_insert_ne by congruence.
          rewrite lookup_delete_ne by congruence. reflexivity. }
  destruct (write_limit e) as [n|].
  - destruct (n <? len text) eqn:Hn; [discriminate|].
    destruct (rename_fails e); [discriminate|].
    intros [= <-]. destruct (Hfix _ eq_refl) as [-> Hm]. fold text.
    rewrite Hn, Hm. reflexivity.
  - destruct (rename_fails e); [discriminate|].
    intros [= <-]. destruct (Hfix _ eq_refl) as [-> Hm]. fold text.
    rewrite Hm. reflexivity.
Qed.

(** X15. A run that raises has one of three causes, and each leaves its
    own trace.  The header is missing or unreadable, or the temporary file
    cannot be opened: the file system is as it was.  The write stops after
    [n] characters, fewer than the text has: the file system is as it was
    but for the temporary file, which holds the first [n] characters of
    the text.  The write completes and the rename fails: the file system
    is as it was but for the temporary file, which holds the whole text.
    In no case is the temporary file removed. *)
Theorem failed_run_leaves_prefix (iter : gset string → list string)
    (header_file_name output_file_name : string) (e : env) (fs fs' : files) :
  let temp_file_name := output_file_name +:+ ".tmp" in
  generate_psa_constants iter header_file_name output_file_name e fs
  = (Raised, fs') →
  (fs' = fs
   ∧ (fs !! header_file_name = None
      ∨ unreadable e header_file_name = true
      ∨ unwritable e temp_file_name = true))
  ∨ ∃ content,
      fs !! header_file_name = Some content
      ∧ let text := write_file iter (read_file init (readlines content)) in
        (∃ n, write_limit e = Some n ∧ n < len text
              ∧ fs' = <[temp_file_name := take_str n text]> fs)
        ∨ (write_completes e text = true ∧ rename_fails e = true
           ∧ fs' = <[temp_file_name := text]> fs).
Proof. apply failed_run. Qed.

Lemma failed_run_leaves_prefix_witness :
  let e := mkEnv (λ _, false) (λ _, false) (Some 10) false in
  let fs : files :=
    {[ "crypto.h" := "#define PSA_SUCCESS ((psa_status_t)0)" +:+ nl ]} in
  let fs' := snd (generate_psa_constants elements "crypto.h" "names.c" e fs) in
  let temp_file_name := "names.c" +:+ ".tmp" in
  (fs' = fs
   ∧ (fs !! "crypto.h" = None
      ∨ unreadable e "crypto.h" = true
      ∨ unwritable e temp_file_name = true))
  ∨ ∃ content,
      fs !! "crypto.h" = Some content
      ∧ let text := write_file elements (read_file init (readlines content)) in
        (∃ n, write_limit e = Some n ∧ n < len text
              ∧ fs' = <[temp_file_name := take_str n text]> fs)
        ∨ (write_completes e text = true ∧ rename_fails e = true
           ∧ fs' = <[temp_file_name := text]> fs).
Proof.
  intros e fs fs'.
  apply (failed_run_leaves_prefix elements "crypto.h" "names.c" e fs fs').
  assert (fst (generate_psa_constants elements "crypto.h" "names.c" e fs)
          = Raised) as H by (vm_compute; reflexivity).
  unfold fs'.
  destruct (generate_psa_constants elements "crypto.h" "names.c" e fs)
    as [o m].
  cbn in H |- *. rewrite H. reflexivity.
Defined.

(** X16. A second run on the files that a first run left, and in the same
    conditions, returns and leaves them as they are, when the header is
    neither the output file nor the temporary file. *)
Theorem rerun_changes_nothing (iter : gset string → list string)
    (header_file_name output_file_name : string) (e : env) (fs fs1 : files) :
  header_file_name ≠ output_file_name →
  header_file_name ≠ output_file_name +:+ ".tmp" →
  generate_psa_constants iter header_file_name output_file_name e fs
  = (Returned tt, fs1) →
  generate_psa_constants iter header_file_name output_file_name e fs1
  = (Returned tt, fs1).
Proof. apply rerun. Qed.

Lemma rerun_changes_nothing_witness :
  let e := mkEnv (λ _, false) (λ _, false) None false in
  let fs : files :=
    {[ "crypto.h" := "#define PSA_SUCCESS ((psa_status_t)0)" +:+ nl ]} in
  let fs1 := snd (generate_psa_constants elements "crypto.h" "names.c" e fs) in
  generate_psa_constants elements "crypto.h" "names.c" e fs1
  = (Returned tt, fs1).
Proof.
  intros e fs fs1.
  apply (rerun_changes_nothing elements "crypto.h" "names.c" e fs fs1).
  - discriminate.
  - intros H. vm_compute in H. discriminate H.
  - assert (fst (generate_psa_constants elements "crypto.h" "names.c" e fs)
            = Returned tt) as H by (vm_compute; reflexivity).
    unfold fs1.
    destruct (generate_psa_constants elements "crypto.h" "names.c" e fs)
      as [o m].
    cbn in H |- *. rewrite H. reflexivity.
Defined.
